(** * Context_Bridge: idiom-aware translation pipeline

    A shallow embedding of the orchestration code of the repository
    ([idiom_detector.py] and the [TranslationTester] class of
    [test_translation.py]), of the translation endpoint of
    [playground_api.py] and of the prediction loop of
    [model_evaluation.py], together with the properties its design document
    states about it and further properties read off the code.

    Python strings are modelled as lists of Unicode code points, Python
    dictionaries that are written as literals in the source as association
    lists in source order, exceptions as the left summand of a result type and
    the neural model as an oracle whose calls are recorded in a trace. *)

From Stdlib Require Import String Ascii ZArith Bool Arith Lia List.
From Stdlib Require Import Sorting.Sorted Sorting.Permutation.
Import ListNotations.

(* ===================================================================== *)
(** * Python strings *)
(* ===================================================================== *)

(** A Python [str] is a sequence of code points. *)
Definition str := list Z.

(** Literals are written as Rocq strings (UTF-8 bytes) and decoded. *)
Fixpoint utf8_decode (bs : list Z) : str :=
  match bs with
  | [] => []
  | b0 :: r0 =>
    if (b0 <? 0x80)%Z then b0 :: utf8_decode r0
    else if (b0 <? 0xE0)%Z then
      match r0 with
      | b1 :: r1 => ((b0 - 0xC0) * 64 + (b1 - 0x80))%Z :: utf8_decode r1
      | _ => []
      end
    else if (b0 <? 0xF0)%Z then
      match r0 with
      | b1 :: b2 :: r2 =>
        ((b0 - 0xE0) * 4096 + (b1 - 0x80) * 64 + (b2 - 0x80))%Z :: utf8_decode r2
      | _ => []
      end
    else
      match r0 with
      | b1 :: b2 :: b3 :: r3 =>
        ((b0 - 0xF0) * 262144 + (b1 - 0x80) * 4096 + (b2 - 0x80) * 64 + (b3 - 0x80))%Z
          :: utf8_decode r3
      | _ => []
      end
  end.

Definition py (s : string) : str :=
  utf8_decode (map (fun a => Z.of_N (N_of_ascii a)) (list_ascii_of_string s)).

Fixpoint eqb_str (a b : str) : bool :=
  match a, b with
  | [], [] => true
  | x :: a', y :: b' => (x =? y)%Z && eqb_str a' b'
  | _, _ => false
  end.

(** [d.get(k)] on a dictionary literal. *)
Fixpoint dict_get {V : Type} (d : list (str * V)) (k : str) : option V :=
  match d with
  | [] => None
  | (k', v) :: d' => if eqb_str k' k then Some v else dict_get d' k
  end.

(** [d.get(k, default)]. *)
Definition dict_get_default {V : Type} (d : list (str * V)) (k : str) (default : V) : V :=
  match dict_get d k with
  | Some v => v
  | None => default
  end.

Definition in_range (lo hi c : Z) : bool := ((lo <=? c) && (c <=? hi))%Z.

(** [str.isspace] on one code point; also the class [\s] of [re] on a
    [str] pattern.  The whole set is listed (Unicode 14). *)
Definition isspace (c : Z) : bool :=
  (in_range 0x09 0x0D c || in_range 0x1C 0x20 c || (c =? 0x85) || (c =? 0xA0)
   || (c =? 0x1680) || in_range 0x2000 0x200A c || in_range 0x2028 0x2029 c
   || (c =? 0x202F) || (c =? 0x205F) || (c =? 0x3000))%Z.

(** The builtins whose answer is read from the interpreter's Unicode
    database.  They are not code of the repository; the development is
    parametric in them. *)
Class Unicode := {
  isalpha : Z -> bool;          (* [c.isalpha()] for a one-character string *)
  isalnum : Z -> bool;          (* [c.isalnum()] *)
  lower : str -> str            (* [s.lower()] *)
}.

Definition ascii_lower (c : Z) : Z :=
  if in_range 0x41 0x5A c then (c + 32)%Z else c.

(** The database of CPython 3.11 (Unicode 14) on the blocks Basic Latin
    (U+0000..U+007F), Devanagari (U+0900..U+097F) and Telugu
    (U+0C00..U+0C7F).  Code points of other blocks are answered as
    non-letters and are left as they are by [lower]; the concrete texts
    evaluated in this file stay inside the three blocks. *)
Definition cpython_isalpha (c : Z) : bool :=
  in_range 0x41 0x5A c || in_range 0x61 0x7A c
  || in_range 0x904 0x939 c || (c =? 0x93D)%Z || (c =? 0x950)%Z
  || in_range 0x958 0x961 c || in_range 0x971 0x97F c
  || in_range 0xC05 0xC0C c || in_range 0xC0E 0xC10 c || in_range 0xC12 0xC28 c
  || in_range 0xC2A 0xC39 c || (c =? 0xC3D)%Z || in_range 0xC58 0xC5A c
  || (c =? 0xC5D)%Z || in_range 0xC60 0xC61 c.

Definition cpython_isalnum (c : Z) : bool :=
  cpython_isalpha c || in_range 0x30 0x39 c
  || in_range 0x966 0x96F c || in_range 0xC66 0xC6F c || in_range 0xC78 0xC7E c.

Definition cpython_blocks : Unicode :=
  {| isalpha := cpython_isalpha;
     isalnum := cpython_isalnum;
     lower := map ascii_lower |}.

(** [s.strip()]: leading and trailing whitespace removed. *)
Fixpoint lstrip (s : str) : str :=
  match s with
  | [] => []
  | c :: s' => if isspace c then lstrip s' else s
  end.

Definition rstrip (s : str) : str := rev (lstrip (rev s)).

Definition strip (s : str) : str := rstrip (lstrip s).

(** [text[a:b]] for offsets [0 <= a], [0 <= b]. *)
Definition slice (text : str) (a b : nat) : str := firstn (b - a) (skipn a text).

(** [len([c for c in text if p(c)])], [sum(1 for c in text if p(c))]. *)
Definition count (p : Z -> bool) (text : str) : nat := length (filter p text).

(* ===================================================================== *)
(** * Script classification ([TranslationTester.detect_script],
      [TranslationTester.get_expected_script]) *)
(* ===================================================================== *)

(** The script names the code passes around as strings. *)
Inductive script := Latin | Devanagari | Telugu | Mixed | Unknown.

Definition script_eqb (a b : script) : bool :=
  match a, b with
  | Latin, Latin | Devanagari, Devanagari | Telugu, Telugu
  | Mixed, Mixed | Unknown, Unknown => true
  | _, _ => false
  end.

Definition script_map : list (str * script) :=
  [ (py "eng_Latn", Latin); (py "hin_Deva", Devanagari); (py "tel_Telu", Telugu);
    (py "eng", Latin); (py "hin", Devanagari); (py "tel", Telugu);
    (py "english", Latin); (py "hindi", Devanagari); (py "telugu", Telugu) ].

Definition lang_map : list (str * str) :=
  [ (py "eng", py "eng_Latn"); (py "hin", py "hin_Deva"); (py "tel", py "tel_Telu");
    (py "english", py "eng_Latn"); (py "hindi", py "hin_Deva");
    (py "telugu", py "tel_Telu") ].

Section Classifier.
Context {U : Unicode}.

(** The three comparisons [n / total > 0.5] are float comparisons in the
    source; for [total > 0] below 2^53 (any string that fits in memory)
    the quotient is rounded correctly and the test is [2 * n > total]. *)
Definition detect_script (text : str) : script :=
  match text with
  | [] => Unknown
  | _ =>
    let telugu_count := count (in_range 0x0C00 0x0C7F) text in
    let hindi_count := count (in_range 0x0900 0x097F) text in
    let latin_count := count (fun c => isalpha c && (c <? 128)%Z) text in
    let total := count isalpha text in
    if total =? 0 then Unknown
    else if total <? 2 * telugu_count then Telugu
    else if total <? 2 * hindi_count then Devanagari
    else if total <? 2 * latin_count then Latin
    else Mixed
  end.

Definition get_expected_script (lang_code : str) : script :=
  dict_get_default script_map (lower lang_code) Unknown.

End Classifier.

(* ===================================================================== *)
(** * The external translation capability *)
(* ===================================================================== *)

(** [translate] runs the fine-tuned model ([self.model.generate]),
    [fallback_translate] the base NLLB model
    ([self.fallback_model.generate]). *)
Inductive engine := FineTuned | BaseNLLB.

(** One invocation: the text and the two language codes handed to the
    tokenizer.  The generation parameters ([max_length], [num_beams], ...)
    are constants of the callers and are left out. *)
Record call := mkCall {
  call_engine : engine;
  call_text : str;
  call_src : str;
  call_tgt : str
}.

(** Exceptions that escape the modelled functions. *)
Inductive exn :=
| CapabilityFailure     (* raised inside the model call *)
| IndexError.           (* "string index out of range" *)

(** Computations that call the model: they read and extend the trace of
    the calls issued so far and return a value or raise. *)
Definition M (A : Type) : Type := list call -> (exn + A) * list call.

Definition ret {A : Type} (a : A) : M A := fun log => (inr a, log).

Definition raise {A : Type} (e : exn) : M A := fun log => (inl e, log).

Definition bind {A B : Type} (m : M A) (k : A -> M B) : M B :=
  fun log =>
    match m log with
    | (inr a, log') => k a log'
    | (inl e, log') => (inl e, log')
    end.

Declare Scope py_scope.
Delimit Scope py_scope with py.
Notation "x <- m ;; k" := (bind m (fun x => k))
  (at level 61, m at next level, right associativity) : py_scope.
Notation "' pat <- m ;; k" := (bind m (fun x => match x with pat => k end))
  (at level 61, pat pattern, m at next level, right associativity) : py_scope.

(** The calls a computation adds to the trace. *)
Definition calls_of {A : Type} (m : M A) (log : list call) : list call :=
  skipn (length log) (snd (m log)).

(** The language a script implies: the [if]/[elif] chain that assigns
    [detected_source] in [translate]; [None] is Python's [None]. *)
Definition detected_source (actual_script : script) : option str :=
  match actual_script with
  | Devanagari => Some (py "hin_Deva")
  | Telugu => Some (py "tel_Telu")
  | Latin => Some (py "eng_Latn")
  | _ => None
  end.

(** The normalisation of a language code at the head of [translate]:
    [lang_map.get(code.lower(), code)]. *)
Definition normalize_lang {U : Unicode} (code : str) : str :=
  dict_get_default lang_map (lower code) code.

Section Translator.
Context {U : Unicode}.

(** The models are a black box: the answer to a call may depend on the
    calls made before it; [None] stands for an exception raised by the
    tokenizer or by generation. *)
Variable nllb : list call -> call -> option str.

(** Tokenize, generate, decode and [.strip()]. *)
Definition generate (e : engine) (text source_lang target_lang : str) : M str :=
  fun log =>
    let c := mkCall e text source_lang target_lang in
    match nllb log c with
    | Some decoded => (inr (strip decoded), log ++ [c])
    | None => (inl CapabilityFailure, log ++ [c])
    end.

Definition fallback_translate (text source_lang target_lang : str) : M str :=
  generate BaseNLLB text source_lang target_lang.

Definition translate (text source_lang target_lang : str) (use_fallback : bool)
  : M (str * bool) :=
  (let source_lang := normalize_lang source_lang in
   let target_lang := normalize_lang target_lang in
   let expected_script := get_expected_script target_lang in
   translation <- generate FineTuned text source_lang target_lang ;;
   let actual_script := detect_script translation in
   if script_eqb actual_script expected_script then
     ret (translation, false)
   else if use_fallback then
     match detected_source actual_script with
     | Some detected =>
       if negb (eqb_str detected target_lang) then
         fallback_translation <- fallback_translate translation detected target_lang ;;
         let fallback_script := detect_script fallback_translation in
         if script_eqb fallback_script expected_script then
           ret (fallback_translation, true)
         else
           ret (fallback_translation, true)
       else ret (translation, false)
     | None => ret (translation, false)
     end
   else ret (translation, false))%py.

End Translator.

(* ===================================================================== *)
(** * Regular expressions ([re.finditer] with [re.IGNORECASE]) *)
(* ===================================================================== *)

(** The fragment of the [re] syntax the catalogue is written in. *)
Inductive citem :=
| CChar (c : Z)         (* a character inside [[...]] *)
| CSpace                (* [\s] *)
| CWord.                (* [\w] *)

Inductive regex :=
| Eps
| Chr (c : Z)                    (* a literal character *)
| Cls (items : list citem)       (* [\s], [\w], [[...]] *)
| Seq (r1 r2 : regex)
| Alt (r1 r2 : regex)            (* r1|r2 *)
| Opt (r : regex)                (* r? *)
| Plus (r : regex)               (* r+ *)
| NotAhead (r : regex).          (* (?!r) *)

Definition chr (s : string) : Z := hd 0%Z (py s).

(** Reads the items of a set up to the closing bracket. *)
Fixpoint parse_set (s : str) (acc : list citem) : option (regex * str) :=
  match s with
  | [] => None
  | c :: s' =>
    if (c =? chr "]")%Z then Some (Cls acc, s')
    else if (c =? chr "\")%Z then
      match s' with
      | e :: s'' =>
        if (e =? chr "s")%Z then parse_set s'' (acc ++ [CSpace])
        else if (e =? chr "w")%Z then parse_set s'' (acc ++ [CWord])
        else parse_set s'' (acc ++ [CChar e])
      | [] => None
      end
    else parse_set s' (acc ++ [CChar c])
  end.

Definition expect_close (p : option (regex * str)) (wrap : regex -> regex)
  : option (regex * str) :=
  match p with
  | Some (r, c :: rest) => if (c =? chr ")")%Z then Some (wrap r, rest) else None
  | _ => None
  end.

Definition postfix (a : regex) (s : str) : regex * str :=
  match s with
  | c :: s' =>
    if (c =? chr "+")%Z then (Plus a, s')
    else if (c =? chr "?")%Z then (Opt a, s')
    else (a, s)
  | [] => (a, s)
  end.

(** Recursive descent: alternatives of sequences of quantified atoms. *)
Fixpoint parse_alt (fuel : nat) (s : str) : option (regex * str) :=
  match fuel with
  | 0 => None
  | S fuel' =>
    match parse_seq fuel' s with
    | Some (r1, c :: rest) =>
      if (c =? chr "|")%Z then
        match parse_alt fuel' rest with
        | Some (r2, rest') => Some (Alt r1 r2, rest')
        | None => None
        end
      else Some (r1, c :: rest)
    | other => other
    end
  end
with parse_seq (fuel : nat) (s : str) : option (regex * str) :=
  match fuel with
  | 0 => None
  | S fuel' =>
    match s with
    | [] => Some (Eps, s)
    | c :: _ =>
      if ((c =? chr ")") || (c =? chr "|"))%Z then Some (Eps, s)
      else
        match parse_atom fuel' s with
        | Some (a, rest) =>
          let (a', rest') := postfix a rest in
          match parse_seq fuel' rest' with
          | Some (Eps, rest'') => Some (a', rest'')
          | Some (r, rest'') => Some (Seq a' r, rest'')
          | None => None
          end
        | None => None
        end
    end
  end
with parse_atom (fuel : nat) (s : str) : option (regex * str) :=
  match fuel with
  | 0 => None
  | S fuel' =>
    match s with
    | [] => None
    | c :: s' =>
      if (c =? chr "(")%Z then
        match s' with
        | q :: k :: s'' =>
          if ((q =? chr "?") && (k =? chr ":"))%Z then
            expect_close (parse_alt fuel' s'') (fun r => r)
          else if ((q =? chr "?") && (k =? chr "!"))%Z then
            expect_close (parse_alt fuel' s'') NotAhead
          else expect_close (parse_alt fuel' s') (fun r => r)
        | _ => None
        end
      else if (c =? chr "[")%Z then parse_set s' []
      else if (c =? chr "\")%Z then
        match s' with
        | e :: s'' =>
          if (e =? chr "s")%Z then Some (Cls [CSpace], s'')
          else if (e =? chr "w")%Z then Some (Cls [CWord], s'')
          else Some (Chr e, s'')
        | [] => None
        end
      else Some (Chr c, s')
    end
  end.

(** [re.compile]; [None] stands for [re.error]. *)
Definition compile (pattern : str) : option regex :=
  match parse_alt (4 * length pattern + 4) pattern with
  | Some (r, []) => Some r
  | _ => None
  end.

(** A match object: [m.start()], [m.end()], [m.group(0)]. *)
Record rematch := mkMatch {
  m_start : nat;
  m_end : nat;
  m_group : str
}.

(** A literal under [re.IGNORECASE]: the two cases of an ASCII letter, and
    the three letters of the patterns that also match a non-ASCII
    character (dotted and dotless i, long s, Kelvin sign).  This is all of
    [re]'s case-insensitive matching for the characters that occur in the
    catalogue's patterns. *)
Definition ci_eq (c x : Z) : bool :=
  ((ascii_lower c =? ascii_lower x)
   || ((ascii_lower c =? chr "i") && ((x =? 0x130) || (x =? 0x131)))
   || ((ascii_lower c =? chr "s") && (x =? 0x17F))
   || ((ascii_lower c =? chr "k") && (x =? 0x212A)))%Z.

Section Matcher.
Context {U : Unicode}.

Definition citem_match (x : Z) (i : citem) : bool :=
  match i with
  | CChar c => ci_eq c x
  | CSpace => isspace x
  | CWord => isalnum x || (x =? chr "_")%Z
  end.

(** The loop of a greedy [r+]: one more repetition of [step] is tried
    before the continuation; a repetition that consumes nothing ends the
    loop.  Each round shortens the string, so a budget above its length
    is never used up. *)
Fixpoint greedy (step : str -> (str -> option str) -> option str)
  (k : str -> option str) (budget : nat) (s : str) {struct budget} : option str :=
  match budget with
  | 0 => None
  | S budget' =>
    step s (fun s' =>
      if length s' <? length s then
        match greedy step k budget' s' with
        | Some e => Some e
        | None => k s'
        end
      else k s')
  end.

(** Backtracking matcher: [rmatch r s k] tries the ways [r] matches a
    prefix of [s] in [re]'s order of preference (left alternative first,
    quantifiers greedy) and returns the first one the continuation [k]
    accepts for the rest. *)
Fixpoint rmatch (r : regex) (s : str) (k : str -> option str) {struct r}
  : option str :=
  match r with
  | Eps => k s
  | Chr c =>
    match s with
    | x :: s' => if ci_eq c x then k s' else None
    | [] => None
    end
  | Cls items =>
    match s with
    | x :: s' => if existsb (citem_match x) items then k s' else None
    | [] => None
    end
  | Seq r1 r2 => rmatch r1 s (fun s' => rmatch r2 s' k)
  | Alt r1 r2 =>
    match rmatch r1 s k with
    | Some e => Some e
    | None => rmatch r2 s k
    end
  | Opt r1 =>
    match rmatch r1 s k with
    | Some e => Some e
    | None => k s
    end
  | Plus r1 => greedy (rmatch r1) k (S (length s)) s
  | NotAhead r1 =>
    match rmatch r1 s (fun s' => Some s') with
    | Some _ => None
    | None => k s
    end
  end.

(** The scan of [finditer]: the leftmost match from each position, the
    next search starting where the last match ended.  [skip] counts the
    characters of the last match still to step over.  (After an empty
    match [re] searches again at the same position for a non-empty one;
    no pattern of the catalogue matches the empty string.) *)
Fixpoint scan (r : regex) (pos : nat) (s : str) (skip : nat) {struct s}
  : list rematch :=
  match skip with
  | S skip' =>
    match s with
    | [] => []
    | _ :: s' => scan r (S pos) s' skip'
    end
  | 0 =>
    match rmatch r s (fun rest => Some rest) with
    | Some rest =>
      let n := length s - length rest in
      mkMatch pos (pos + n) (firstn n s) ::
        match s with
        | [] => []
        | _ :: s' => scan r (S pos) s' (n - 1)
        end
    | None =>
      match s with
      | [] => []
      | _ :: s' => scan r (S pos) s' 0
      end
    end
  end.

Definition finditer (pattern text : str) : list rematch :=
  match compile pattern with
  | Some r => scan r 0 text 0
  | None => []
  end.

End Matcher.

(* ===================================================================== *)
(** * Idiom detection ([IdiomDetector]) *)
(* ===================================================================== *)

(** [s.split()]: the maximal runs of non-whitespace characters. *)
Fixpoint split_words (s : str) (word : str) : list str :=
  match s with
  | [] => match word with [] => [] | _ => [rev word] end
  | c :: s' =>
    if isspace c then
      match word with
      | [] => split_words s' []
      | _ => rev word :: split_words s' []
      end
    else split_words s' (c :: word)
  end.

Definition split (s : str) : list str := split_words s [].

(** [' '.join(words)]. *)
Fixpoint join_space (words : list str) : str :=
  match words with
  | [] => []
  | [w] => w
  | w :: ws => w ++ chr " " :: join_space ws
  end.

Fixpoint startswith (s prefix : str) : bool :=
  match prefix, s with
  | [], _ => true
  | p :: prefix', c :: s' => (p =? c)%Z && startswith s' prefix'
  | _ :: _, [] => false
  end.

(** [sub in s] for strings. *)
Fixpoint contains (s sub : str) : bool :=
  startswith s sub ||
  match s with
  | [] => false
  | _ :: s' => contains s' sub
  end.

(** [w in {...}] for a set of strings. *)
Definition mem_str (w : str) (words : list str) : bool := existsb (eqb_str w) words.

(** [l[-n:]] for [n > 0]. *)
Definition last_n {A : Type} (n : nat) (l : list A) : list A := skipn (length l - n) l.

(** A detected occurrence: the dictionary with the keys ['idiom'],
    ['start'], ['end'] and ['original']. *)
Record span := mkSpan {
  idiom : str;
  start : nat;
  end_ : nat;
  original : str
}.

Definition english_idioms : list (str * str) :=
  [ (py "(?:break|breaking|broke|broken)\s+the\s+ice(?!\s+\w)", py "break the ice");
    (py "(?:bite|biting|bit|bitten)\s+the\s+bullet(?!\s+\w)", py "bite the bullet");
    (py "(?:spill|spilling|spilled|spilt)\s+the\s+beans(?!\s+\w)", py "spill the beans");
    (py "(?:hit|hitting|hits)\s+the\s+(?:nail\s+on\s+the\s+head|jackpot)",
       py "hit the nail on the head");
    (py "(?:call|calling|called)\s+it\s+a\s+day(?!\s+\w)", py "call it a day");
    (py "(?:cut|cutting|cuts)\s+(?:corners|to\s+the\s+chase)", py "cut corners");
    (py "(?:piece|pieces)\s+of\s+cake(?!\s+\w)", py "piece of cake");
    (py "(?:cost|costs|costing)\s+an?\s+arm\s+and\s+a\s+leg(?!\s+\w)",
       py "cost an arm and a leg");
    (py "(?:beat|beating|beats)\s+around\s+the\s+bush(?!\s+\w)", py "beat around the bush");
    (py "out\s+of\s+the\s+blue(?!\s+\w)", py "out of the blue");
    (py "(?:once|one\s+time)\s+in\s+a\s+blue\s+moon(?!\s+\w)", py "once in a blue moon");
    (py "(?:throw|throwing|threw|thrown)\s+in\s+the\s+towel(?!\s+\w)",
       py "throw in the towel");
    (py "(?:let|letting)\s+the\s+cat\s+out\s+of\s+the\s+bag(?!\s+\w)",
       py "let the cat out of the bag");
    (py "(?:cross|crossing|crossed)\s+that\s+bridge\s+when\s+(?:we|you|they)\s+(?:come|get)\s+to\s+it",
       py "cross that bridge");
    (py "(?:hold|holding|held)\s+(?:your|my|their)\s+horses(?!\s+\w)", py "hold your horses");
    (py "(?:jump|jumping|jumped)\s+the\s+gun(?!\s+\w)", py "jump the gun");
    (py "(?:miss|missing|missed)\s+the\s+boat(?!\s+\w)", py "miss the boat");
    (py "(?:pull|pulling|pulled)\s+(?:someone's|your|my)\s+leg(?!\s+\w)",
       py "pull someone's leg");
    (py "(?:under\s+the\s+weather|feeling\s+under\s+the\s+weather)", py "under the weather");
    (py "(?:the\s+ball\s+is\s+in\s+(?:your|my|their)\s+court)", py "ball in your court");
    (py "(?:a\s+)?blessing\s+in\s+disguise(?!\s+\w)", py "blessing in disguise");
    (py "(?:don't|do\s+not)\s+(?:count|counting)\s+(?:your|my|their)\s+chickens\s+(?:before|until)\s+they\s+hatch",
       py "don't count your chickens");
    (py "(?:actions?\s+speaks?\s+louder\s+than\s+words?)",
       py "actions speak louder than words");
    (py "(?:a\s+)?bird\s+in\s+(?:the\s+)?hand\s+is\s+worth\s+two\s+in\s+the\s+bush",
       py "a bird in the hand");
    (py "(?:where\s+there'?s\s+smoke,?\s+there'?s\s+fire)",
       py "where there's smoke, there's fire") ].

Definition telugu_idioms : list (str * str) :=
  [ (py "కతికితే\s+అతకదు", py "కతికితే అతకదు");
    (py "ఎలుకకు\s+పిల్లి\s+సాక్షి", py "ఎలుకకు పిల్లి సాక్షి");
    (py "ఉల్లి\s+పది\s+తల్లుల\s+పెట్టు", py "ఉల్లి పది తల్లుల పెట్టు");
    (py "అడవి\s+కాచిన\s+వెన్నెల", py "అడవి కాచిన వెన్నెల");
    (py "పైన\s+పటారం[,\s]+లోన\s+లొటారం", py "పైన పటారం, లోన లొటారం") ].

Definition hindi_idioms : list (str * str) :=
  [ (py "अंधों\s+में\s+काना\s+राजा", py "अंधों में काना राजा");
    (py "जैसा\s+देश\s+वैसा\s+भेष", py "जैसा देश वैसा भेष");
    (py "घर\s+की\s+मुर्गी\s+दाल\s+बराबर", py "घर की मुर्गी दाल बराबर") ].

Definition blue_objects : list str :=
  map py [ "tub"; "car"; "house"; "box"; "bag"; "shirt"; "sky"; "ocean";
           "water"; "bottle"; "container"; "room"; "building"; "truck" ]%string.

Definition cake_words : list str :=
  map py [ "chocolate"; "vanilla"; "birthday"; "wedding"; "frosting"; "batter";
           "slice" ]%string.

Definition ice_words : list str :=
  map py [ "frozen"; "cold"; "winter"; "skating"; "hockey"; "cubes"; "freezer" ]%string.

(** [idioms_found.sort(key=lambda x: x['start'])]: the sort is stable, so
    its result is the one of inserting each element before the first
    later element that does not start before it. *)
Fixpoint insert_by_start (x : span) (l : list span) : list span :=
  match l with
  | [] => [x]
  | y :: l' => if start x <=? start y then x :: l else y :: insert_by_start x l'
  end.

Definition sort_by_start (l : list span) : list span :=
  fold_right insert_by_start [] l.

Section Detector.
Context {U : Unicode}.

Definition _validate_idiom_context (text : str) (m : rematch) (idiom : str) : bool :=
  let start_pos := m_start m in
  let end_pos := m_end m in
  let words_before := last_n 10 (split (firstn start_pos text)) in
  let words_after := firstn 10 (split (skipn end_pos text)) in
  let context := lower (join_space (words_before ++ words_after)) in
  if eqb_str idiom (py "out of the blue")
     && match words_after with
        | next_word :: _ => mem_str (lower next_word) blue_objects
        | [] => false
        end
  then false
  else if eqb_str idiom (py "piece of cake")
     && match words_after with
        | _ :: _ => existsb (contains context) cake_words
        | [] => false
        end
  then false
  else if eqb_str idiom (py "break the ice")
     && existsb (contains context) ice_words
  then false
  else true.

Definition patterns_for (language : str) : option (list (str * str)) :=
  if eqb_str language (py "eng_Latn") || eqb_str language (py "eng") then
    Some english_idioms
  else if eqb_str language (py "tel_Telu") || eqb_str language (py "tel") then
    Some telugu_idioms
  else if eqb_str language (py "hin_Deva") || eqb_str language (py "hin") then
    Some hindi_idioms
  else None.

(** The spans one pattern contributes, in the order of its matches. *)
Definition spans_of (text : str) (entry : str * str) : list span :=
  let (pattern, canonical_form) := entry in
  map (fun m => mkSpan canonical_form (m_start m) (m_end m) (m_group m))
      (filter (fun m => _validate_idiom_context text m canonical_form)
              (finditer pattern text)).

Definition detect_idioms (text language : str) : list span :=
  match patterns_for language with
  | None => []
  | Some patterns => sort_by_start (flat_map (spans_of text) patterns)
  end.

End Detector.

(* ===================================================================== *)
(** * Segmentation ([IdiomDetector.split_sentence_with_idioms]) *)
(* ===================================================================== *)

(** A part: the dictionary with ['type'] either ['text'] or ['idiom'],
    ['content'] and, for idioms, ['canonical']. *)
Inductive part :=
| TextPart (content : str)
| IdiomPart (content canonical : str).

Definition content (p : part) : str :=
  match p with
  | TextPart c => c
  | IdiomPart c _ => c
  end.

(** A stripped piece of text becomes a part when it is not empty. *)
Definition text_part (piece : str) : list part :=
  match strip piece with
  | [] => []
  | stripped => [TextPart stripped]
  end.

(** The loop over the idioms followed by the code after it; the parts are
    produced in the order in which the source appends them. *)
Fixpoint split_from (text : str) (current_pos : nat) (idioms : list span) : list part :=
  match idioms with
  | [] =>
    if current_pos <? length text then text_part (skipn current_pos text) else []
  | i :: rest =>
    (if current_pos <? start i then text_part (slice text current_pos (start i)) else [])
      ++ IdiomPart (original i) (idiom i) :: split_from text (end_ i) rest
  end.

Definition split_sentence_with_idioms (text : str) (idioms : list span) : list part :=
  match idioms with
  | [] => [TextPart text]
  | _ => split_from text 0 idioms
  end.

(* ===================================================================== *)
(** * Contextual translation ([ContextualTranslator]) *)
(* ===================================================================== *)

Definition idiom_translations : list ((str * str) * list (str * str)) :=
  [ ((py "eng_Latn", py "tel_Telu"),
     [ (py "piece of cake", py "చాలా సులువు");
       (py "out of the blue", py "అనుకోకుండా");
       (py "break the ice", py "మాట్లాడటం మొదలుపెట్టడం");
       (py "bite the bullet", py "కష్టమైన పని చేయడం");
       (py "spill the beans", py "రహస్యం చెప్పడం");
       (py "call it a day", py "పని ముగించడం");
       (py "hit the nail on the head", py "సరిగ్గా చెప్పడం");
       (py "cost an arm and a leg", py "చాలా ఖరీదు");
       (py "once in a blue moon", py "అరుదుగా");
       (py "throw in the towel", py "వదులుకోవడం") ]);
    ((py "eng_Latn", py "hin_Deva"),
     [ (py "piece of cake", py "बहुत आसान");
       (py "out of the blue", py "अचानक से");
       (py "break the ice", py "बातचीत शुरू करना");
       (py "bite the bullet", py "कठिन काम करना");
       (py "spill the beans", py "राज़ खोलना");
       (py "call it a day", py "काम खत्म करना");
       (py "hit the nail on the head", py "बिलकुल सही कहना");
       (py "cost an arm and a leg", py "बहुत महंगा");
       (py "once in a blue moon", py "कभी कभार");
       (py "throw in the towel", py "हार मान लेना") ]);
    ((py "tel_Telu", py "eng_Latn"),
     [ (py "కతికితే అతకదు", py "if you stir it, it won't stick");
       (py "ఎలుకకు పిల్లి సాక్షి", py "cat as witness for the mouse") ]);
    ((py "hin_Deva", py "eng_Latn"),
     [ (py "अंधों में काना राजा", py "in the land of the blind, the one-eyed man is king");
       (py "जैसा देश वैसा भेष", py "when in Rome, do as the Romans do") ]) ].

(** [idiom_key in self.idiom_translations and canonical_idiom in
    self.idiom_translations[idiom_key]], with the value found. *)
Fixpoint curated (table : list ((str * str) * list (str * str)))
  (source_lang target_lang canonical_idiom : str) : option str :=
  match table with
  | [] => None
  | ((s, t), entries) :: table' =>
    if eqb_str s source_lang && eqb_str t target_lang then dict_get entries canonical_idiom
    else curated table' source_lang target_lang canonical_idiom
  end.

(** An entry of ['idiom_details']: ['original'], ['canonical'],
    ['translation']. *)
Record idiom_detail := mkDetail {
  d_original : str;
  d_canonical : str;
  d_translation : str
}.

(** The metadata dictionary; its keys depend on the method. *)
Inductive metadata :=
| Direct (used_fallback : bool)
| Contextual (idioms_detected : nat) (idiom_details : list idiom_detail)
             (parts_translated : nat).

Definition punctuation : str := py ".,!?;:".

Definition mem_chr (c : Z) (s : str) : bool := existsb (Z.eqb c) s.

(** The loop of [_join_parts_intelligently] over [parts[1:]]. *)
Fixpoint join_loop (english : bool) (result : str) (parts : list str) : exn + str :=
  match parts with
  | [] => inr result
  | part :: rest =>
    if english then
      match result with
      | [] => join_loop english (result ++ part) rest
      | _ =>
        if mem_chr (last result 0%Z) punctuation then join_loop english (result ++ part) rest
        else
          match part with
          | [] => inl IndexError                       (* [part[0]] *)
          | c :: _ =>
            if mem_chr c punctuation then join_loop english (result ++ part) rest
            else join_loop english (result ++ chr " " :: part) rest
          end
      end
    else
      match result, part with
      | _ :: _, _ :: _ => join_loop english (result ++ chr " " :: part) rest
      | _, _ => join_loop english (result ++ part) rest
      end
  end.

Definition _join_parts_intelligently (parts : list str) (target_lang : str) : exn + str :=
  match parts with
  | [] => inr []
  | first :: rest =>
    let english := eqb_str target_lang (py "eng_Latn") || eqb_str target_lang (py "eng") in
    match join_loop english first rest with
    | inr result => inr (strip result)
    | inl e => inl e
    end
  end.

Section ContextualTranslator.
Context {U : Unicode}.
Variable nllb : list call -> call -> option str.

(** The body of the loop over the parts: the translation of one part
    and, for an idiom, its entry in ['idiom_details']. *)
Definition translate_part (source_lang target_lang : str) (p : part)
  : M (str * option idiom_detail) :=
  (match p with
   | TextPart content =>
     '(trans, _) <- translate nllb content source_lang target_lang true ;;
     ret (trans, None)
   | IdiomPart content canonical_idiom =>
     idiom_trans <-
       match curated idiom_translations source_lang target_lang canonical_idiom with
       | Some t => ret t
       | None =>
         '(t, _) <- translate nllb canonical_idiom source_lang target_lang true ;;
         ret t
       end ;;
     ret (idiom_trans, Some (mkDetail content canonical_idiom idiom_trans))
   end)%py.

Fixpoint translate_parts (source_lang target_lang : str) (parts : list part)
  (translated_parts : list str) (details : list idiom_detail)
  : M (list str * list idiom_detail) :=
  (match parts with
   | [] => ret (translated_parts, details)
   | p :: rest =>
     '(trans, detail) <- translate_part source_lang target_lang p ;;
     translate_parts source_lang target_lang rest
       (translated_parts ++ [trans])
       (details ++ match detail with Some d => [d] | None => [] end)
   end)%py.

Definition translate_with_context (text source_lang target_lang : str)
  : M (str * metadata) :=
  (let idioms_found := detect_idioms text source_lang in
   match idioms_found with
   | [] =>
     '(translation, used_fallback) <- translate nllb text source_lang target_lang true ;;
     ret (translation, Direct used_fallback)
   | _ =>
     let parts := split_sentence_with_idioms text idioms_found in
     '(translated_parts, details) <-
        translate_parts source_lang target_lang parts [] [] ;;
     match _join_parts_intelligently translated_parts target_lang with
     | inr final_translation =>
       ret (final_translation,
            Contextual (length idioms_found) details (length parts))
     | inl e => raise e
     end
   end)%py.

(** [TranslationTester.translate_contextual]. *)
Definition translate_contextual (text source_lang target_lang : str)
  : M (str * metadata) :=
  translate_with_context text source_lang target_lang.

End ContextualTranslator.

(* ===================================================================== *)
(** * Vocabulary of the properties *)
(* ===================================================================== *)

Section Counts.
Context {U : Unicode}.

(** What [detect_script] computes, with the counts named as the source
    names them. *)
Definition telugu_count (text : str) : nat := count (in_range 0x0C00 0x0C7F) text.
Definition hindi_count (text : str) : nat := count (in_range 0x0900 0x097F) text.
Definition latin_count (text : str) : nat :=
  count (fun c => isalpha c && (c <? 128)%Z) text.
Definition total (text : str) : nat := count isalpha text.

End Counts.

(** The script the table of [get_expected_script] lists for a canonical
    code. *)
Definition canonical_script (code : str) (s : script) : Prop :=
  (code = py "eng_Latn" /\ s = Latin) \/
  (code = py "hin_Deva" /\ s = Devanagari) \/
  (code = py "tel_Telu" /\ s = Telugu).

(** Stub models for the concrete runs. *)
Definition echo_model : list call -> call -> option str :=
  fun _ c => Some (call_text c).

Definition constant_model (answer : str) : list call -> call -> option str :=
  fun _ _ => Some answer.

(** The model that raises on one text and echoes every other one. *)
Definition failing_on (text : str) : list call -> call -> option str :=
  fun _ c => if eqb_str (call_text c) text then None else Some (call_text c).

Section Runs.
Context {U : Unicode}.
Variable nllb : list call -> call -> option str.

(** One run of [translate], with the binds unfolded. *)
Definition translate_outcome (text source_lang target_lang : str)
  (use_fallback : bool) (log : list call) : (exn + str * bool) * list call :=
  let src := normalize_lang source_lang in
  let tgt := normalize_lang target_lang in
  let first := mkCall FineTuned text src tgt in
  match nllb log first with
  | None => (inl CapabilityFailure, log ++ [first])
  | Some decoded =>
    let translation := strip decoded in
    let accepted := (inr (translation, false), log ++ [first]) in
    if script_eqb (detect_script translation) (get_expected_script tgt) then accepted
    else if use_fallback then
      match detected_source (detect_script translation) with
      | Some detected =>
        if eqb_str detected tgt then accepted
        else
          let second := mkCall BaseNLLB translation detected tgt in
          match nllb (log ++ [first]) second with
          | Some decoded2 => (inr (strip decoded2, true), log ++ [first; second])
          | None => (inl CapabilityFailure, log ++ [first; second])
          end
      | None => accepted
      end
    else accepted
  end.

(** Every call of [added], issued in this order after [log], was
    answered. *)
Fixpoint answered (log added : list call) : Prop :=
  match added with
  | [] => True
  | c :: rest => nllb log c <> None /\ answered (log ++ [c]) rest
  end.

(** The shape of a run: the trace only grows; a run that raises
    CapabilityFailure stopped at the first call that was not answered; in
    every other run all calls were answered. *)
Definition stops_at_failure {A : Type} (m : M A) : Prop :=
  forall log, exists added,
    snd (m log) = log ++ added /\
    match fst (m log) with
    | inl CapabilityFailure =>
      exists pre c, added = pre ++ [c] /\ answered log pre /\ nllb (log ++ pre) c = None
    | _ => answered log added
    end.

End Runs.

(** [bool(s)] for a string. *)
Definition nonempty (s : str) : bool :=
  match s with
  | [] => false
  | _ :: _ => true
  end.

(** The language codes [detect_idioms] has a catalogue for. *)
Definition detector_codes : list str :=
  map py ["eng_Latn"; "eng"; "tel_Telu"; "tel"; "hin_Deva"; "hin"]%string.

Definition is_idiom_part (p : part) : bool :=
  match p with
  | IdiomPart _ _ => true
  | TextPart _ => false
  end.

(** The idiom part the segmenter makes of a span. *)
Definition idiom_part_of (i : span) : part := IdiomPart (original i) (idiom i).

Fixpoint nodupb (l : list str) : bool :=
  match l with
  | [] => true
  | x :: l' => negb (mem_str x l') && nodupb l'
  end.

(** What the development uses of [str.lower]: its result holds no ASCII
    capital, and on an ASCII string it maps each capital to its small
    letter.  Both hold of CPython's [str.lower]. *)
Definition python_lower (U : Unicode) : Prop :=
  (forall s c, In c (lower s) -> in_range 0x41 0x5A c = false)
  /\ (forall s, forallb (fun c => (c <? 128)%Z) s = true -> lower s = map ascii_lower s).

(** The three codes the alias table maps to. *)
Definition canonical_codes : list str :=
  map py ["eng_Latn"; "hin_Deva"; "tel_Telu"]%string.

(** A character that none of the counts of [detect_script] counts. *)
Definition neutral {U : Unicode} (c : Z) : bool :=
  negb (isalpha c) && negb (in_range 0x0C00 0x0C7F c) && negb (in_range 0x0900 0x097F c).

(** Whether the loop body of [translate_with_context] calls [translate]
    for a part: always for text, and for an idiom without a curated
    translation. *)
Definition needs_model (source_lang target_lang : str) (p : part) : bool :=
  match p with
  | TextPart _ => true
  | IdiomPart _ canonical_idiom =>
    match curated idiom_translations source_lang target_lang canonical_idiom with
    | Some _ => false
    | None => true
    end
  end.

(** The part an entry of ['idiom_details'] was recorded for. *)
Definition detail_part (d : idiom_detail) : part :=
  IdiomPart (d_original d) (d_canonical d).

Definition suffix_of (s' s : str) : Prop := exists p, s = p ++ s'.

Definition starts_le (a b : span) : Prop := start a <= start b.

(** Two spans overlap when they share a character position. *)
Definition overlap (a b : span) : Prop := start a < end_ b /\ start b < end_ a.

Definition non_overlapping (spans : list span) : Prop :=
  ForallOrdPairs (fun a b => ~ overlap a b) spans.

(** The patterns [detect_idioms] scans for a language: none for a
    language it does not know. *)
Definition catalogue {U : Unicode} (language : str) : list (str * str) :=
  match patterns_for language with
  | Some patterns => patterns
  | None => []
  end.

Definition whitespace (s : str) : Prop := forallb isspace s = true.

(** The segments with the whitespace that was trimmed put back: a gap
    before each content and a trailing run. *)
Fixpoint weave (gaps contents : list str) (trail : str) : str :=
  match gaps, contents with
  | g :: gaps', c :: contents' => g ++ c ++ weave gaps' contents' trail
  | _, _ => trail
  end.

(** The idioms are spans over the text: each lies inside the text and
    carries the text it covers. *)
Definition span_over (text : str) (i : span) : Prop :=
  start i <= end_ i /\ end_ i <= length text
  /\ original i = slice text (start i) (end_ i).

(** Sorted and pairwise non-overlapping: every span ends before every
    later span starts. *)
Definition ordered_spans (idioms : list span) : Prop :=
  StronglySorted (fun a b => end_ a <= start b) idioms.

(* ===================================================================== *)
(** * The playground API ([playground_api.py]) *)
(* ===================================================================== *)

Definition lang_mapping : list (str * str) :=
  [ (py "en", py "eng_Latn"); (py "hi", py "hin_Deva"); (py "te", py "tel_Telu");
    (py "zh", py "zho_Hans"); (py "de", py "deu_Latn");
    (py "eng_Latn", py "eng_Latn"); (py "hin_Deva", py "hin_Deva");
    (py "tel_Telu", py "tel_Telu"); (py "zho_Hans", py "zho_Hans");
    (py "deu_Latn", py "deu_Latn") ].

Definition map_frontend_to_backend_lang (lang_code : str) : str :=
  dict_get_default lang_mapping lang_code lang_code.

(** A value of the request's JSON object: a string, or a value of
    another type, of which the endpoint only uses the truth value (every
    method it calls on such a value raises). *)
Inductive jvalue :=
| JString (s : str)
| JOther (truth : bool).

Definition truthy (v : jvalue) : bool :=
  match v with
  | JString s => nonempty s
  | JOther truth => truth
  end.

(** What [request.get_json()] returned: an object with its members, or
    a value that is not an object ([None] and the other falsy values
    with [truth = false]). *)
Inductive payload :=
| NotAnObject (truth : bool)
| Object (fields : list (str * jvalue)).

Inductive api_error :=
| ModelNotLoaded          (* 'Translation model not loaded. ...' *)
| NoJsonData              (* 'No JSON data provided' *)
| TextRequired            (* 'Text is required' *)
| LanguagesRequired       (* 'Source and target languages are required' *)
| TranslationFailed.      (* 'Translation failed: ...' *)

(** The ['metadata'] member of a response, before the script report is
    added to it. *)
Inductive api_metadata :=
| RegularMeta (used_fallback : bool) (fallback_reason : option str)
| ContextualMeta (idioms_detected : nat) (idiom_details : list idiom_detail)
                 (translation_strategy : str).

(** A response with ['success': True]. *)
Record api_success := mkSuccess {
  target_text : str;
  source_text : str;
  r_source_lang : str;
  r_target_lang : str;
  translation_type : str;
  r_metadata : api_metadata;
  output_script : script;
  expected_script : script;
  script_correct : bool
}.

(** A response: an error with its HTTP status, or a success (status
    200). *)
Inductive response :=
| Failed (status : nat) (error : api_error)
| Succeeded (body : api_success).

(** [metadata.get('idioms_detected', 0)], [metadata.get('idiom_details',
    [])] and [metadata.get('translation_strategy', 'direct')]: the
    metadata of [translate_with_context] has no key
    ['translation_strategy'] in either of its two forms. *)
Definition contextual_meta (m : metadata) : api_metadata :=
  match m with
  | Direct _ => ContextualMeta 0 [] (py "direct")
  | Contextual idioms_detected idiom_details _ =>
    ContextualMeta idioms_detected idiom_details (py "direct")
  end.

Section Playground.
Context {U : Unicode}.
Variable nllb : list call -> call -> option str.

(** The response for a translation, with the script report. *)
Definition respond (translation text source_lang target_lang backend_target kind : str)
  (meta : api_metadata) : response :=
  let detected_script := detect_script translation in
  let expected := get_expected_script backend_target in
  Succeeded (mkSuccess translation text source_lang target_lang kind meta
               detected_script expected (script_eqb detected_script expected)).

(** [translate_text], from the parsed request body on.  [tester_loaded]
    says whether the global [tester] is set.  Every exception raised
    inside the [try] becomes the response 500. *)
Definition translate_text (tester_loaded : bool) (data : payload)
  : list call -> response * list call :=
  fun log =>
    if negb tester_loaded then (Failed 500 ModelNotLoaded, log)
    else
      match data with
      | NotAnObject false => (Failed 400 NoJsonData, log)
      | NotAnObject true => (Failed 500 TranslationFailed, log)      (* [data.get] *)
      | Object [] => (Failed 400 NoJsonData, log)
      | Object fields =>
        match dict_get_default fields (py "text") (JString []) with
        | JOther _ => (Failed 500 TranslationFailed, log)            (* [.strip()] *)
        | JString raw =>
          let text := strip raw in
          let source_lang := dict_get_default fields (py "source_lang") (JString []) in
          let target_lang := dict_get_default fields (py "target_lang") (JString []) in
          let use_contextual :=
            truthy (dict_get_default fields (py "use_contextual") (JOther false)) in
          if negb (nonempty text) then (Failed 400 TextRequired, log)
          else if negb (truthy source_lang) || negb (truthy target_lang) then
            (Failed 400 LanguagesRequired, log)
          else
            match source_lang, target_lang with
            | JString source, JString target =>
              let backend_source := map_frontend_to_backend_lang source in
              let backend_target := map_frontend_to_backend_lang target in
              if use_contextual then
                match translate_contextual nllb text backend_source backend_target log with
                | (inr (translation, metadata), log') =>
                  (respond translation text source target backend_target
                           (py "contextual") (contextual_meta metadata), log')
                | (inl _, log') => (Failed 500 TranslationFailed, log')
                end
              else
                match translate nllb text backend_source backend_target true log with
                | (inr (translation, used_fallback), log') =>
                  (respond translation text source target backend_target (py "regular")
                           (RegularMeta used_fallback
                              (if used_fallback then Some (py "script_mismatch") else None)),
                   log')
                | (inl _, log') => (Failed 500 TranslationFailed, log')
                end
            | _, _ => (Failed 500 TranslationFailed, log)      (* [.lower()] of a non-string *)
            end
        end
      end.

End Playground.

(* ===================================================================== *)
(** * The evaluation loop ([model_evaluation.py]) *)
(* ===================================================================== *)


Section Evaluation.
Context {U : Unicode}.
Variable nllb : list call -> call -> option str.


End Evaluation.

(* ===================================================================== *)
(** * Lemmas on strings and counts *)
(* ===================================================================== *)

Lemma eqb_str_spec (a b : str) : eqb_str a b = true <-> a = b.
Proof.
  revert b; induction a as [|x a IH]; intros [|y b]; simpl; split;
    try congruence; try reflexivity.
  - intros H. apply andb_true_iff in H as [Hx Hab].
    apply Z.eqb_eq in Hx. apply IH in Hab. congruence.
  - intros H. injection H as -> ->. rewrite Z.eqb_refl. simpl. now apply IH.
Qed.

Lemma eqb_str_refl (a : str) : eqb_str a a = true.
Proof. now apply eqb_str_spec. Qed.

Lemma script_eqb_spec (a b : script) : script_eqb a b = true <-> a = b.
Proof. destruct a, b; simpl; split; congruence. Qed.

Lemma count_le_length (p : Z -> bool) (text : str) : count p text <= length text.
Proof. unfold count. apply filter_length_le. Qed.

Lemma count_all (p : Z -> bool) (text : str) :
  forallb p text = true -> count p text = length text.
Proof.
  unfold count. induction text as [|c text IH]; simpl; [reflexivity|].
  intros H. apply andb_true_iff in H as [Hc Ht]. rewrite Hc. simpl. now rewrite IH.
Qed.

Lemma count_none (p : Z -> bool) (text : str) :
  forallb (fun c => negb (p c)) text = true -> count p text = 0.
Proof.
  unfold count. induction text as [|c text IH]; simpl; [reflexivity|].
  intros H. apply andb_true_iff in H as [Hc Ht].
  apply negb_true_iff in Hc. rewrite Hc. now apply IH.
Qed.

Lemma forallb_impl (p q : Z -> bool) (text : str) :
  (forall c, p c = true -> q c = true) ->
  forallb p text = true -> forallb q text = true.
Proof.
  intros Hpq. induction text as [|c text IH]; simpl; [reflexivity|].
  intros H. apply andb_true_iff in H as [Hc Ht].
  rewrite (Hpq _ Hc). simpl. auto.
Qed.

Lemma count_ext_in (p q : Z -> bool) (text : str) :
  (forall c, In c text -> p c = q c) -> count p text = count q text.
Proof.
  unfold count. induction text as [|c text IH]; simpl; [reflexivity|].
  intros H. rewrite (H c (or_introl eq_refl)).
  destruct (q c); simpl; rewrite IH; auto.
Qed.

(* ===================================================================== *)
(** * Properties of the script classifier *)
(* ===================================================================== *)

Section ClassifierFacts.
Context {U : Unicode}.

Lemma detect_script_unfold (text : str) :
  detect_script text =
    if total text =? 0 then Unknown
    else if total text <? 2 * telugu_count text then Telugu
    else if total text <? 2 * hindi_count text then Devanagari
    else if total text <? 2 * latin_count text then Latin
    else Mixed.
Proof. destruct text; reflexivity. Qed.

Lemma detect_script_no_alpha (text : str) :
  total text = 0 -> detect_script text = Unknown.
Proof. intros H. rewrite detect_script_unfold, H. reflexivity. Qed.

Lemma detect_script_telugu_block (text : str) :
  0 < total text -> forallb (in_range 0x0C00 0x0C7F) text = true ->
  detect_script text = Telugu.
Proof.
  intros Hpos Hall. rewrite detect_script_unfold.
  pose proof (count_le_length isalpha text) as Hle. fold (total text) in Hle.
  pose proof (count_all _ _ Hall) as Hc. fold (telugu_count text) in Hc.
  destruct (Nat.eqb_spec (total text) 0); [lia|].
  destruct (Nat.ltb_spec (total text) (2 * telugu_count text)); [reflexivity|lia].
Qed.

Lemma detect_script_devanagari_block (text : str) :
  0 < total text -> forallb (in_range 0x0900 0x097F) text = true ->
  detect_script text = Devanagari.
Proof.
  intros Hpos Hall. rewrite detect_script_unfold.
  pose proof (count_le_length isalpha text) as Hle. fold (total text) in Hle.
  pose proof (count_all _ _ Hall) as Hc. fold (hindi_count text) in Hc.
  assert (Ht : telugu_count text = 0).
  { apply count_none. revert Hall. apply forallb_impl.
    intros c. unfold in_range. intros H.
    apply andb_true_iff in H as [H1 H2].
    apply Z.leb_le in H1, H2. apply negb_true_iff, andb_false_iff.
    left. apply Z.leb_gt. lia. }
  rewrite Ht.
  destruct (Nat.eqb_spec (total text) 0); [lia|].
  destruct (Nat.ltb_spec (total text) (2 * 0)); [lia|].
  destruct (Nat.ltb_spec (total text) (2 * hindi_count text)); [reflexivity|lia].
Qed.

Lemma detect_script_ascii (text : str) :
  0 < total text -> forallb (fun c => (c <? 128)%Z) text = true ->
  detect_script text = Latin.
Proof.
  intros Hpos Hall. rewrite detect_script_unfold.
  assert (Hin : forall c, In c text -> (c <? 128)%Z = true).
  { intros c Hc. rewrite forallb_forall in Hall. auto. }
  assert (Ht : telugu_count text = 0).
  { apply count_none. revert Hall. apply forallb_impl.
    intros c H. apply Z.ltb_lt in H. apply negb_true_iff, andb_false_iff.
    left. apply Z.leb_gt. lia. }
  assert (Hh : hindi_count text = 0).
  { apply count_none. revert Hall. apply forallb_impl.
    intros c H. apply Z.ltb_lt in H. apply negb_true_iff, andb_false_iff.
    left. apply Z.leb_gt. lia. }
  assert (Hl : latin_count text = total text).
  { apply count_ext_in. intros c Hc. rewrite (Hin c Hc). apply andb_true_r. }
  rewrite Ht, Hh, Hl.
  destruct (Nat.eqb_spec (total text) 0); [lia|].
  destruct (Nat.ltb_spec (total text) (2 * 0)); [lia|].
  destruct (Nat.ltb_spec (total text) (2 * total text)); [reflexivity|lia].
Qed.

End ClassifierFacts.

(** C1.  The canonical codes [eng_Latn], [hin_Deva] and [tel_Telu] are keys
    of the table of [get_expected_script], but the lookup lower-cases the
    code first, so none of them is found: the function answers Unknown for
    the three canonical codes, and the expected script only for the six
    lower-case aliases. *)
Theorem get_expected_script_canonical_codes :
  dict_get script_map (py "eng_Latn") = Some Latin /\
  dict_get script_map (py "hin_Deva") = Some Devanagari /\
  dict_get script_map (py "tel_Telu") = Some Telugu /\
  @get_expected_script cpython_blocks (py "eng_Latn") = Unknown /\
  @get_expected_script cpython_blocks (py "hin_Deva") = Unknown /\
  @get_expected_script cpython_blocks (py "tel_Telu") = Unknown /\
  map (@get_expected_script cpython_blocks)
      (map py ["eng"; "hin"; "tel"; "english"; "hindi"; "telugu"]%string)
    = [Latin; Devanagari; Telugu; Latin; Devanagari; Telugu].
Proof. repeat split; vm_compute; reflexivity. Qed.

(** C8, as stated, fails twice.  A text made only of Telugu digits lies
    in the Telugu block but has no alphabetic character, so it is
    classified Unknown; and in "hello" followed by a Telugu word with two
    vowel signs the ASCII letters are 5 of the 9 alphabetic characters,
    yet the 6 characters of the Telugu block outweigh them and the text
    is classified Telugu. *)
Lemma detect_script_claim_fails :
  ~ (forall text : str, text <> [] ->
       forallb (in_range 0x0C00 0x0C7F) text = true ->
       @detect_script cpython_blocks text = Telugu)
  /\
  ~ (forall text : str,
       @total cpython_blocks text < 2 * @latin_count cpython_blocks text ->
       @detect_script cpython_blocks text = Latin).
Proof.
  split.
  - intros H. specialize (H (py "౧౨")).
    assert (E : @detect_script cpython_blocks (py "౧౨") = Unknown) by (vm_compute; reflexivity).
    rewrite H in E; [discriminate| |vm_compute; reflexivity].
    vm_compute. discriminate.
  - intros H. specialize (H (py "hello నమస్తే")).
    assert (E : @detect_script cpython_blocks (py "hello నమస్తే") = Telugu)
      by (vm_compute; reflexivity).
    rewrite H in E; [discriminate|].
    vm_compute. lia.
Qed.

(** C8, amended.  [detect_script] answers Unknown for a text without
    alphabetic characters (the empty one included).  A text with at least
    one alphabetic character that consists only of characters of the
    Telugu block, of the Devanagari block, or of ASCII characters is
    classified Telugu, Devanagari, Latin.  In general the three tests are
    tried in the order Telugu, Devanagari, Latin; the Telugu and the
    Devanagari test count every character of the block, alphabetic or
    not, the Latin test the ASCII letters, each against half of the number
    of alphabetic characters; Mixed is the answer when no test passes. *)
Theorem detect_script_spec {U : Unicode} (text : str) :
  (total text = 0 -> detect_script text = Unknown) /\
  (0 < total text ->
     (forallb (in_range 0x0C00 0x0C7F) text = true -> detect_script text = Telugu) /\
     (forallb (in_range 0x0900 0x097F) text = true -> detect_script text = Devanagari) /\
     (forallb (fun c => (c <? 128)%Z) text = true -> detect_script text = Latin) /\
     (detect_script text = Telugu <-> total text < 2 * telugu_count text) /\
     (detect_script text = Devanagari <->
        ~ total text < 2 * telugu_count text /\ total text < 2 * hindi_count text) /\
     (detect_script text = Latin <->
        ~ total text < 2 * telugu_count text /\ ~ total text < 2 * hindi_count text /\
        total text < 2 * latin_count text) /\
     (detect_script text = Mixed <->
        ~ total text < 2 * telugu_count text /\ ~ total text < 2 * hindi_count text /\
        ~ total text < 2 * latin_count text)).
Proof.
  split; [apply detect_script_no_alpha|].
  intros Hpos.
  split; [now apply detect_script_telugu_block|].
  split; [now apply detect_script_devanagari_block|].
  split; [now apply detect_script_ascii|].
  rewrite detect_script_unfold.
  destruct (Nat.eqb_spec (total text) 0); [lia|].
  destruct (Nat.ltb_spec (total text) (2 * telugu_count text));
    [repeat split; intros; try discriminate; try tauto; lia|].
  destruct (Nat.ltb_spec (total text) (2 * hindi_count text));
    [repeat split; intros; try discriminate; try tauto; lia|].
  destruct (Nat.ltb_spec (total text) (2 * latin_count text));
    repeat split; intros; try discriminate; try tauto; lia.
Qed.

Lemma detect_script_spec_witness :
  @detect_script cpython_blocks (py "నమస్తే") = Telugu.
Proof.
  apply (proj1 (proj2 (@detect_script_spec cpython_blocks (py "నమస్తే")) ltac:(vm_compute; lia))).
  vm_compute. reflexivity.
Defined.

(* ===================================================================== *)
(** * Properties of plain-mode translation *)
(* ===================================================================== *)

Lemma calls_of_app {A : Type} (m : M A) (log added : list call) :
  snd (m log) = log ++ added -> calls_of m log = added.
Proof.
  intros H. unfold calls_of. rewrite H.
  rewrite skipn_app, Nat.sub_diag, skipn_all. reflexivity.
Qed.

Section TranslatorFacts.
Context {U : Unicode}.
Variable nllb : list call -> call -> option str.

Lemma translate_run text source_lang target_lang use_fallback log :
  translate nllb text source_lang target_lang use_fallback log
  = translate_outcome nllb text source_lang target_lang use_fallback log.
Proof.
  unfold translate, translate_outcome, bind, fallback_translate, generate, ret.
  destruct (nllb log _) as [decoded|]; [|reflexivity].
  destruct (script_eqb _ _); [reflexivity|].
  destruct use_fallback; [|reflexivity].
  destruct (detected_source _) as [detected|]; [|reflexivity].
  destruct (eqb_str detected _); simpl; [reflexivity|].
  destruct (nllb (log ++ _) _) as [decoded2|]; rewrite <- ?app_assoc; simpl;
    [destruct (script_eqb _ _)|]; reflexivity.
Qed.

(** Every run of [translate] issues the first call, and at most one
    more. *)
Lemma translate_calls text source_lang target_lang use_fallback log :
  let first := mkCall FineTuned text (normalize_lang source_lang)
                      (normalize_lang target_lang) in
  exists rest,
    snd (translate nllb text source_lang target_lang use_fallback log)
      = log ++ first :: rest
    /\ length rest <= 1.
Proof.
  intros first. rewrite translate_run. unfold translate_outcome. fold first.
  destruct (nllb log first) as [decoded|]; [|exists []; simpl; auto].
  destruct (script_eqb _ _); [exists []; simpl; auto|].
  destruct use_fallback; [|exists []; simpl; auto].
  destruct (detected_source _) as [detected|]; [|exists []; simpl; auto].
  destruct (eqb_str detected _); [exists []; simpl; auto|].
  destruct (nllb (log ++ _) _); eexists [_]; simpl; auto.
Qed.

(** [translate] raises only when a call to the models raises, and that
    call is the last one it issues. *)
Lemma translate_failure text source_lang target_lang use_fallback log e :
  fst (translate nllb text source_lang target_lang use_fallback log) = inl e ->
  e = CapabilityFailure /\
  exists pre c,
    snd (translate nllb text source_lang target_lang use_fallback log)
      = log ++ pre ++ [c]
    /\ nllb (log ++ pre) c = None.
Proof.
  rewrite translate_run. unfold translate_outcome.
  destruct (nllb log _) as [decoded|] eqn:E1.
  - destruct (script_eqb _ _); [discriminate|].
    destruct use_fallback; [|discriminate].
    destruct (detected_source _) as [detected|]; [|discriminate].
    destruct (eqb_str detected _); [discriminate|].
    destruct (nllb (log ++ _) _) as [decoded2|] eqn:E2; [discriminate|].
    simpl. intros [= <-]. split; [reflexivity|].
    eexists [_], _. split; [reflexivity|]. exact E2.
  - simpl. intros [= <-]. split; [reflexivity|].
    exists [], (mkCall FineTuned text (normalize_lang source_lang)
                       (normalize_lang target_lang)).
    rewrite app_nil_r. split; [reflexivity|exact E1].
Qed.

End TranslatorFacts.

(** C2, as stated, fails: an expected script of Unknown does not make
    [translate] accept the output.  For the target [deu_Latn] (a code the
    playground API passes on) the expected script is Unknown, the German
    output is classified Latin, and [translate] calls the base model to
    translate it "from English" and returns that second output with the
    flag set. *)
Lemma translate_unknown_expected_not_accepted :
  ~ (forall (U : Unicode) nllb text source_lang target_lang log,
       get_expected_script (normalize_lang target_lang) = Unknown ->
       exists out first,
         translate nllb text source_lang target_lang true log
           = (inr (out, false), log ++ [first])).
Proof.
  intros H.
  destruct (H cpython_blocks (constant_model (py "Hallo Welt")) (py "Hello world")
              (py "eng_Latn") (py "deu_Latn") [] ltac:(vm_compute; reflexivity))
    as (out & first & E).
  vm_compute in E. discriminate E.
Qed.

(** C2, amended.  When the script of the first output equals the script
    [get_expected_script] computes for the normalised target (Unknown
    included, when the output has no alphabetic character), or the
    normalised target is one of the three canonical codes and the output
    is in the script the table lists for it, [translate] returns the first
    output unchanged with the flag false, and the first call is the only
    one. *)
Theorem translate_accepts_matching_script {U : Unicode}
  (nllb : list call -> call -> option str)
  (text source_lang target_lang : str) (use_fallback : bool) (log : list call)
  (decoded : str) :
  let tgt := normalize_lang target_lang in
  let first := mkCall FineTuned text (normalize_lang source_lang) tgt in
  nllb log first = Some decoded ->
  detect_script (strip decoded) = get_expected_script tgt
    \/ canonical_script tgt (detect_script (strip decoded)) ->
  translate nllb text source_lang target_lang use_fallback log
    = (inr (strip decoded, false), log ++ [first]).
Proof.
  intros tgt first Hfirst Hscript.
  rewrite translate_run. unfold translate_outcome. fold tgt first. rewrite Hfirst.
  destruct (script_eqb _ _) eqn:Eq; [reflexivity|].
  destruct Hscript as [Hs|Hs].
  - apply script_eqb_spec in Hs. congruence.
  - destruct use_fallback; [|reflexivity].
    destruct Hs as [[-> ->]|[[-> ->]|[-> ->]]]; reflexivity.
Qed.

Lemma translate_accepts_matching_script_witness :
  @translate cpython_blocks (constant_model (py " namaste duniya ")) (py "नमस्ते दुनिया")
     (py "hindi") (py "english") true []
  = (inr (py "namaste duniya", false),
     [mkCall FineTuned (py "नमस्ते दुनिया") (py "hin_Deva") (py "eng_Latn")]).
Proof.
  apply (@translate_accepts_matching_script cpython_blocks
           (constant_model (py " namaste duniya ")) (py "नमस्ते दुनिया")
           (py "hindi") (py "english") true [] (py " namaste duniya ")).
  - reflexivity.
  - right. left. split; vm_compute; reflexivity.
Defined.

(** C3.  With the fallback enabled (the default), when the first output's
    script differs from the expected one and the script implies a language
    other than the target, [translate] issues exactly one more call: the
    base model is asked to translate the first output from the implied
    language to the target, and its output is returned with the flag true
    whatever its script is (the exception a failing second call raises
    passes through).  No run of [translate] issues more than two
    calls. *)
Theorem translate_fallback_once {U : Unicode}
  (nllb : list call -> call -> option str)
  (text source_lang target_lang : str) (log : list call) :
  let tgt := normalize_lang target_lang in
  let first := mkCall FineTuned text (normalize_lang source_lang) tgt in
  (forall use_fallback,
     length (calls_of (translate nllb text source_lang target_lang use_fallback) log) <= 2)
  /\
  (forall decoded detected,
     nllb log first = Some decoded ->
     detect_script (strip decoded) <> get_expected_script tgt ->
     detected_source (detect_script (strip decoded)) = Some detected ->
     detected <> tgt ->
     let second := mkCall BaseNLLB (strip decoded) detected tgt in
     calls_of (translate nllb text source_lang target_lang true) log = [first; second]
     /\ (forall decoded2,
           nllb (log ++ [first]) second = Some decoded2 ->
           fst (translate nllb text source_lang target_lang true log)
             = inr (strip decoded2, true))
     /\ (nllb (log ++ [first]) second = None ->
           fst (translate nllb text source_lang target_lang true log)
             = inl CapabilityFailure)).
Proof.
  intros tgt first. split.
  - intros use_fallback.
    destruct (translate_calls nllb text source_lang target_lang use_fallback log)
      as (rest & Hsnd & Hlen).
    rewrite (calls_of_app _ _ _ Hsnd). simpl. lia.
  - intros decoded detected Hfirst Hmis Hdet Hneq second.
    assert (Hrun : translate nllb text source_lang target_lang true log
                   = match nllb (log ++ [first]) second with
                     | Some decoded2 => (inr (strip decoded2, true), log ++ [first; second])
                     | None => (inl CapabilityFailure, log ++ [first; second])
                     end).
    { rewrite translate_run. unfold translate_outcome. fold tgt first. rewrite Hfirst.
      destruct (script_eqb _ _) eqn:Eq; [apply script_eqb_spec in Eq; contradiction|].
      rewrite Hdet.
      destruct (eqb_str detected tgt) eqn:Ed; [apply eqb_str_spec in Ed; contradiction|].
      reflexivity. }
    split; [|split].
    + apply calls_of_app. rewrite Hrun. destruct (nllb _ second); reflexivity.
    + intros decoded2 H2. rewrite Hrun, H2. reflexivity.
    + intros H2. rewrite Hrun, H2. reflexivity.
Qed.

Lemma translate_fallback_once_witness :
  let nllb := fun (log : list call) (c : call) =>
    match call_engine c with
    | FineTuned => Some (py "नमस्ते दुनिया")
    | BaseNLLB => Some (py "Hello world")
    end in
  calls_of (@translate cpython_blocks nllb (py "Bonjour le monde") (py "fra_Latn")
              (py "eng_Latn") true) []
  = [ mkCall FineTuned (py "Bonjour le monde") (py "fra_Latn") (py "eng_Latn");
      mkCall BaseNLLB (py "नमस्ते दुनिया") (py "hin_Deva") (py "eng_Latn") ].
Proof.
  intros nllb.
  refine (proj1 (proj2 (@translate_fallback_once cpython_blocks nllb
            (py "Bonjour le monde") (py "fra_Latn") (py "eng_Latn") [])
            (py "नमस्ते दुनिया") (py "hin_Deva") _ _ _ _)).
  - reflexivity.
  - vm_compute. discriminate.
  - vm_compute. reflexivity.
  - vm_compute. discriminate.
Defined.

(** C4, as stated, fails: [translate] has no unknown-language error.  A
    code that is in neither table is handed to the models as it is, and
    the request succeeds when they answer. *)
Lemma translate_unknown_language_no_error :
  ~ (forall (U : Unicode) nllb text source_lang target_lang log,
       dict_get lang_map (lower target_lang) = None ->
       ~ In target_lang [py "eng_Latn"; py "hin_Deva"; py "tel_Telu"] ->
       exists e,
         translate nllb text source_lang target_lang true log = (inl e, log)).
Proof.
  intros H.
  destruct (H cpython_blocks echo_model (py "hello") (py "eng_Latn") (py "xx") [])
    as (e & E).
  - vm_compute. reflexivity.
  - simpl. intros [E|[E|[E|[]]]]; vm_compute in E; discriminate E.
  - vm_compute in E. discriminate E.
Qed.

(** C4, amended.  A target code that is not in the alias table is handed
    unchanged to the models: the first call is always issued with it, and
    the request raises only when a call to the models raises. *)
Theorem translate_passes_unlisted_code {U : Unicode}
  (nllb : list call -> call -> option str)
  (text source_lang target_lang : str) (use_fallback : bool) (log : list call) :
  dict_get lang_map (lower target_lang) = None ->
  (exists rest,
     calls_of (translate nllb text source_lang target_lang use_fallback) log
       = mkCall FineTuned text (normalize_lang source_lang) target_lang :: rest)
  /\
  (forall e,
     fst (translate nllb text source_lang target_lang use_fallback log) = inl e ->
     e = CapabilityFailure /\
     exists pre c,
       calls_of (translate nllb text source_lang target_lang use_fallback) log = pre ++ [c]
       /\ nllb (log ++ pre) c = None).
Proof.
  intros Hnone.
  assert (Hnorm : normalize_lang target_lang = target_lang).
  { unfold normalize_lang, dict_get_default. now rewrite Hnone. }
  split.
  - destruct (translate_calls nllb text source_lang target_lang use_fallback log)
      as (rest & Hsnd & _).
    exists rest. rewrite Hnorm in Hsnd. now apply calls_of_app.
  - intros e He.
    destruct (translate_failure nllb _ _ _ _ _ _ He) as (-> & pre & c & Hsnd & Hc).
    split; [reflexivity|]. exists pre, c. split; [|exact Hc].
    now apply calls_of_app.
Qed.

Lemma translate_passes_unlisted_code_witness :
  exists rest,
    calls_of (@translate cpython_blocks echo_model (py "hello") (py "eng") (py "zho_Hans") true) []
      = mkCall FineTuned (py "hello") (py "eng_Latn") (py "zho_Hans") :: rest.
Proof.
  apply (proj1 (@translate_passes_unlisted_code cpython_blocks echo_model
                  (py "hello") (py "eng") (py "zho_Hans") true [] eq_refl)).
Defined.

(* ===================================================================== *)
(** * Properties of the contextual pipeline *)
(* ===================================================================== *)

Lemma join_loop_simple_total (result : str) (parts : list str) :
  exists joined, join_loop false result parts = inr joined.
Proof.
  revert result. induction parts as [|part rest IH]; intros result; simpl.
  - now exists result.
  - destruct result, part; apply IH.
Qed.

Lemma join_loop_raises (english : bool) (result : str) (parts : list str) (e : exn) :
  join_loop english result parts = inl e -> e = IndexError.
Proof.
  revert result. induction parts as [|part rest IH]; intros result; simpl.
  - discriminate.
  - destruct english.
    + destruct result as [|r result]; [apply IH|].
      match goal with |- (if ?b then _ else _) = _ -> _ => destruct b end; [apply IH|].
      destruct part as [|c part]; [congruence|].
      match goal with |- (if ?b then _ else _) = _ -> _ => destruct b end; apply IH.
    + destruct result, part; apply IH.
Qed.

Lemma join_parts_raises (parts : list str) (target_lang : str) (e : exn) :
  _join_parts_intelligently parts target_lang = inl e -> e = IndexError.
Proof.
  unfold _join_parts_intelligently. destruct parts as [|first rest]; [discriminate|].
  destruct (join_loop _ first rest) eqn:E; [|discriminate].
  intros [= <-]. eapply join_loop_raises, E.
Qed.

(** C10.  [_join_parts_intelligently] is not total.  For an English target
    an empty part that follows a result not ending in punctuation is
    indexed at [part[0]] and raises IndexError; the branch for the other
    targets tests [if result and part] and never raises, and the empty
    list gives the empty string for every target. *)
Theorem join_parts_english_empty_part_raises :
  _join_parts_intelligently [py "a"; py ""] (py "eng_Latn") = inl IndexError /\
  _join_parts_intelligently [py "a"; py ""] (py "hin_Deva") = inr (py "a") /\
  (forall target_lang, _join_parts_intelligently [] target_lang = inr []) /\
  (forall result parts, exists joined, join_loop false result parts = inr joined).
Proof.
  split; [vm_compute; reflexivity|].
  split; [vm_compute; reflexivity|].
  split; [reflexivity|].
  apply join_loop_simple_total.
Qed.

Section Trace.
Context {U : Unicode}.
Variable nllb : list call -> call -> option str.

Lemma answered_app (log a b : list call) :
  answered nllb log (a ++ b) <-> answered nllb log a /\ answered nllb (log ++ a) b.
Proof.
  revert log. induction a as [|c a IH]; intros log; simpl.
  - rewrite app_nil_r. tauto.
  - rewrite IH, <- app_assoc. simpl. tauto.
Qed.

Lemma answered_at (log pre post : list call) (c : call) :
  answered nllb log (pre ++ c :: post) -> nllb (log ++ pre) c <> None.
Proof. intros H. apply answered_app in H as [_ H]. simpl in H. tauto. Qed.

Lemma stops_ret {A : Type} (a : A) : stops_at_failure nllb (ret a).
Proof. intros log. exists []. simpl. rewrite app_nil_r. auto. Qed.

Lemma stops_raise_index {A : Type} : stops_at_failure nllb (@raise A IndexError).
Proof. intros log. exists []. simpl. rewrite app_nil_r. auto. Qed.

Lemma stops_generate (e : engine) (text source_lang target_lang : str) :
  stops_at_failure nllb (generate nllb e text source_lang target_lang).
Proof.
  intros log. exists [mkCall e text source_lang target_lang]. unfold generate.
  destruct (nllb log _) eqn:E; simpl.
  - split; [reflexivity|]. split; [congruence|exact I].
  - split; [reflexivity|]. exists [], (mkCall e text source_lang target_lang).
    rewrite app_nil_r. simpl. auto.
Qed.

Lemma stops_bind {A B : Type} (m : M A) (k : A -> M B) :
  stops_at_failure nllb m -> (forall a, stops_at_failure nllb (k a)) ->
  stops_at_failure nllb (bind m k).
Proof.
  intros Hm Hk log. destruct (Hm log) as (a1 & Hs1 & Hf1). unfold bind.
  destruct (m log) as [[e|a] log'] eqn:E; simpl in *; subst log'.
  - exists a1. auto.
  - destruct (Hk a (log ++ a1)) as (a2 & Hs2 & Hf2).
    exists (a1 ++ a2). rewrite Hs2, app_assoc. split; [reflexivity|].
    destruct (fst (k a (log ++ a1))) as [[|]|b].
    + destruct Hf2 as (pre & c & -> & Hpre & Hc).
      exists (a1 ++ pre), c. rewrite <- !app_assoc. split; [reflexivity|].
      rewrite answered_app, app_assoc. auto.
    + apply answered_app. auto.
    + apply answered_app. auto.
Qed.

Ltac stops :=
  repeat first
    [ apply stops_ret
    | apply stops_raise_index
    | apply stops_generate
    | apply stops_bind; [|intros]
    | match goal with
      | |- stops_at_failure _ (match ?x with _ => _ end) => destruct x
      | |- stops_at_failure _ (let _ := _ in _) => cbv zeta
      end ].

Lemma stops_translate (text source_lang target_lang : str) (use_fallback : bool) :
  stops_at_failure nllb (translate nllb text source_lang target_lang use_fallback).
Proof. unfold translate, fallback_translate. stops. Qed.

Lemma stops_translate_part (source_lang target_lang : str) (p : part) :
  stops_at_failure nllb (translate_part nllb source_lang target_lang p).
Proof.
  unfold translate_part. destruct p; stops; try apply stops_translate; stops.
Qed.

Lemma stops_translate_parts (source_lang target_lang : str) (parts : list part)
  (translated_parts : list str) (details : list idiom_detail) :
  stops_at_failure nllb
    (translate_parts nllb source_lang target_lang parts translated_parts details).
Proof.
  revert translated_parts details.
  induction parts as [|p rest IH]; intros translated_parts details; simpl.
  - apply stops_ret.
  - apply stops_bind; [apply stops_translate_part|].
    intros [trans detail]. apply IH.
Qed.

Lemma stops_translate_with_context (text source_lang target_lang : str) :
  stops_at_failure nllb (translate_with_context nllb text source_lang target_lang).
Proof.
  unfold translate_with_context.
  destruct (detect_idioms text source_lang) as [|i found].
  - apply stops_bind; [apply stops_translate|]. intros [t f]. apply stops_ret.
  - apply stops_bind; [apply stops_translate_parts|].
    intros [translated_parts details].
    destruct (_join_parts_intelligently _ _) as [e|final] eqn:E.
    + apply join_parts_raises in E. subst e. apply stops_raise_index.
    + apply stops_ret.
Qed.

End Trace.

(** C5, as stated, fails.  In "We must bite the bullet." the idiom has a
    curated Hindi translation; when the model raises on the first segment
    "We must", the request raises too: no result is returned and no later
    segment is translated. *)
Lemma contextual_failure_is_not_local :
  ~ (forall (U : Unicode) nllb text source_lang target_lang log,
       (exists pre c post,
          calls_of (translate_with_context nllb text source_lang target_lang) log
            = pre ++ c :: post
          /\ nllb (log ++ pre) c = None) ->
       exists result,
         fst (translate_with_context nllb text source_lang target_lang log) = inr result).
Proof.
  intros H.
  destruct (H cpython_blocks (failing_on (py "We must")) (py "We must bite the bullet.")
              (py "eng_Latn") (py "hin_Deva") []) as (result & E).
  - exists [], (mkCall FineTuned (py "We must") (py "eng_Latn") (py "hin_Deva")), [].
    split; vm_compute; reflexivity.
  - vm_compute in E. discriminate E.
Qed.

(** C5, amended.  In contextual mode a failure of the external capability
    on one segment is not local: the exception leaves
    [translate_with_context], the failing call is the last call of the
    request, and no result is returned. *)
Theorem translate_with_context_aborts_on_failure {U : Unicode}
  (nllb : list call -> call -> option str)
  (text source_lang target_lang : str) (log pre post : list call) (c : call) :
  calls_of (translate_with_context nllb text source_lang target_lang) log
    = pre ++ c :: post ->
  nllb (log ++ pre) c = None ->
  fst (translate_with_context nllb text source_lang target_lang log)
    = inl CapabilityFailure
  /\ post = [].
Proof.
  intros Hcalls Hc.
  destruct (stops_translate_with_context nllb text source_lang target_lang log)
    as (added & Hsnd & Hshape).
  rewrite (calls_of_app _ _ _ Hsnd) in Hcalls. subst added.
  destruct (fst (translate_with_context nllb text source_lang target_lang log))
    as [[|]|result].
  - split; [reflexivity|].
    destruct Hshape as (pre' & c' & Heq & Hpre & _).
    apply app_eq_app in Heq as (l & [[-> Hl]|[-> Hl]]).
    + destruct l as [|x l]; simpl in Hl.
      * now injection Hl.
      * injection Hl as _ Hl. now destruct l.
    + destruct l as [|x l]; simpl in Hl.
      * now injection Hl.
      * injection Hl as <- _. apply answered_at in Hpre. contradiction.
  - apply answered_at in Hshape. contradiction.
  - apply answered_at in Hshape. contradiction.
Qed.

Lemma translate_with_context_aborts_on_failure_witness :
  fst (@translate_with_context cpython_blocks (failing_on (py "We must"))
         (py "We must bite the bullet.") (py "eng_Latn") (py "hin_Deva") [])
    = inl CapabilityFailure
  /\ @nil call = [].
Proof.
  apply (@translate_with_context_aborts_on_failure cpython_blocks
           (failing_on (py "We must")) (py "We must bite the bullet.")
           (py "eng_Latn") (py "hin_Deva") [] [] []
           (mkCall FineTuned (py "We must") (py "eng_Latn") (py "hin_Deva")));
    vm_compute; reflexivity.
Defined.

(** C6.  For an idiom part whose key is in the curated table the loop
    body returns the curated string and issues no call.  Otherwise it runs
    [translate] on the canonical form: its calls are those of translating
    the canonical form, the first of them is the fine-tuned model's call
    on the canonical form, and the matched text occurs only in the
    recorded detail. *)
Theorem idiom_part_dispatch {U : Unicode}
  (nllb : list call -> call -> option str)
  (source_lang target_lang content canonical : str) (log : list call) :
  (forall t,
     curated idiom_translations source_lang target_lang canonical = Some t ->
     translate_part nllb source_lang target_lang (IdiomPart content canonical) log
       = (inr (t, Some (mkDetail content canonical t)), log))
  /\
  (curated idiom_translations source_lang target_lang canonical = None ->
     translate_part nllb source_lang target_lang (IdiomPart content canonical) log
       = match translate nllb canonical source_lang target_lang true log with
         | (inr (t, _), log') => (inr (t, Some (mkDetail content canonical t)), log')
         | (inl e, log') => (inl e, log')
         end
     /\ exists rest,
          calls_of (translate_part nllb source_lang target_lang
                      (IdiomPart content canonical)) log
            = mkCall FineTuned canonical (normalize_lang source_lang)
                     (normalize_lang target_lang) :: rest
          /\ length rest <= 1).
Proof.
  split.
  - intros t Ht. unfold translate_part, bind, ret. rewrite Ht. reflexivity.
  - intros Hnone.
    assert (Hrun :
      translate_part nllb source_lang target_lang (IdiomPart content canonical) log
      = match translate nllb canonical source_lang target_lang true log with
        | (inr (t, _), log') => (inr (t, Some (mkDetail content canonical t)), log')
        | (inl e, log') => (inl e, log')
        end).
    { unfold translate_part, bind, ret. rewrite Hnone.
      destruct (translate nllb canonical source_lang target_lang true log)
        as [[e|[t f]] log']; reflexivity. }
    split; [exact Hrun|].
    destruct (translate_calls nllb canonical source_lang target_lang true log)
      as (rest & Hsnd & Hlen).
    exists rest. split; [|exact Hlen].
    apply calls_of_app. rewrite Hrun.
    destruct (translate nllb canonical source_lang target_lang true log)
      as [[e|[t f]] log']; exact Hsnd.
Qed.

Lemma idiom_part_dispatch_witness :
  @translate_part cpython_blocks (fun _ _ => None) (py "eng_Latn") (py "hin_Deva")
     (IdiomPart (py "Piece of Cake") (py "piece of cake")) []
  = (inr (py "बहुत आसान",
          Some (mkDetail (py "Piece of Cake") (py "piece of cake") (py "बहुत आसान"))),
     []).
Proof.
  apply (proj1 (@idiom_part_dispatch cpython_blocks (fun _ _ => None)
                  (py "eng_Latn") (py "hin_Deva")
                  (py "Piece of Cake") (py "piece of cake") [])).
  vm_compute. reflexivity.
Defined.

(* ===================================================================== *)
(** * Properties of the matcher *)
(* ===================================================================== *)

Lemma suffix_of_refl (s : str) : suffix_of s s.
Proof. now exists []. Qed.

Lemma suffix_of_trans (a b c : str) : suffix_of a b -> suffix_of b c -> suffix_of a c.
Proof. intros [p ->] [q ->]. exists (q ++ p). now rewrite app_assoc. Qed.

Lemma suffix_of_length (a b : str) : suffix_of a b -> length a <= length b.
Proof. intros [p ->]. rewrite length_app. lia. Qed.

Section MatcherFacts.
Context {U : Unicode}.

(** The loop of [r+] does not depend on its budget once the budget
    exceeds the length of the string: the budget [S (length s)] that
    [rmatch] gives it is never used up. *)
Lemma greedy_budget (step : str -> (str -> option str) -> option str) :
  (forall s k1 k2, (forall x, k1 x = k2 x) -> step s k1 = step s k2) ->
  forall n m s k1 k2,
    (forall x, k1 x = k2 x) -> length s < n -> length s < m ->
    greedy step k1 n s = greedy step k2 m s.
Proof.
  intros Hstep. induction n as [|n IH]; intros m s k1 k2 Hk Hn Hm; [lia|].
  destruct m as [|m]; [lia|]. simpl. apply Hstep. intros x.
  destruct (Nat.ltb_spec (length x) (length s)) as [Hlt|Hge].
  - rewrite (IH m x k1 k2 Hk) by lia. now rewrite Hk.
  - apply Hk.
Qed.

Lemma rmatch_ext (r : regex) :
  forall s k1 k2, (forall x, k1 x = k2 x) -> rmatch r s k1 = rmatch r s k2.
Proof.
  induction r as [|c|items|r1 IH1 r2 IH2|r1 IH1 r2 IH2|r IH|r IH|r IH];
    intros s k1 k2 Hk; cbn [rmatch].
  - apply Hk.
  - destruct s as [|x s]; [reflexivity|]. destruct (ci_eq c x); [apply Hk|reflexivity].
  - destruct s as [|x s]; [reflexivity|].
    destruct (existsb (citem_match x) items); [apply Hk|reflexivity].
  - apply IH1. intros x. now apply IH2.
  - now rewrite (IH1 s k1 k2 Hk), (IH2 s k1 k2 Hk).
  - now rewrite (IH s k1 k2 Hk), Hk.
  - apply greedy_budget; auto.
  - now rewrite Hk.
Qed.

Lemma plus_budget (r : regex) (s : str) (k : str -> option str) (n : nat) :
  length s < n -> rmatch (Plus r) s k = greedy (rmatch r) k n s.
Proof.
  intros Hn. cbn [rmatch]. apply greedy_budget; auto using rmatch_ext.
Qed.

(** A match ends at a suffix of the string it started on. *)
Lemma rmatch_suffix (r : regex) :
  forall s k e, rmatch r s k = Some e -> exists s', suffix_of s' s /\ k s' = Some e.
Proof.
  induction r as [|c|items|r1 IH1 r2 IH2|r1 IH1 r2 IH2|r IH|r IH|r IH];
    intros s k e; cbn [rmatch].
  - intros H. exists s. split; [apply suffix_of_refl|exact H].
  - destruct s as [|x s]; [discriminate|]. destruct (ci_eq c x); [|discriminate].
    intros H. exists s. split; [now exists [x]|exact H].
  - destruct s as [|x s]; [discriminate|].
    destruct (existsb (citem_match x) items); [|discriminate].
    intros H. exists s. split; [now exists [x]|exact H].
  - intros H. apply IH1 in H as (s1 & Hs1 & H). apply IH2 in H as (s2 & Hs2 & H).
    exists s2. split; [eapply suffix_of_trans; eauto|exact H].
  - destruct (rmatch r1 s k) as [e1|] eqn:E1.
    + intros [= <-]. now apply IH1.
    + apply IH2.
  - destruct (rmatch r s k) as [e1|] eqn:E1.
    + intros [= <-]. now apply IH.
    + intros H. exists s. split; [apply suffix_of_refl|exact H].
  - generalize (S (length s)). intros n. revert s.
    induction n as [|n IHn]; intros s; simpl; [discriminate|].
    intros H. apply IH in H as (s1 & Hs1 & H).
    destruct (length s1 <? length s).
    + destruct (greedy (rmatch r) k n s1) as [e1|] eqn:E1.
      * injection H as <-. apply IHn in E1 as (s2 & Hs2 & E1).
        exists s2. split; [eapply suffix_of_trans; eauto|exact E1].
      * exists s1. auto.
    + exists s1. auto.
  - destruct (rmatch r s (fun s' => Some s')); [discriminate|].
    intros H. exists s. split; [apply suffix_of_refl|exact H].
Qed.

(** Every match object of a scan lies inside the text and carries the
    text between its offsets. *)
Lemma scan_inside (r : regex) :
  forall s pre skip,
    Forall (fun m => m_start m <= m_end m
                     /\ m_end m <= length (pre ++ s)
                     /\ m_group m = slice (pre ++ s) (m_start m) (m_end m))
           (scan r (length pre) s skip).
Proof.
  assert (Hstep : forall c s pre skip,
            (forall pre' skip',
               Forall (fun m => m_start m <= m_end m
                                /\ m_end m <= length (pre' ++ s)
                                /\ m_group m = slice (pre' ++ s) (m_start m) (m_end m))
                      (scan r (length pre') s skip')) ->
            Forall (fun m => m_start m <= m_end m
                             /\ m_end m <= length (pre ++ c :: s)
                             /\ m_group m = slice (pre ++ c :: s) (m_start m) (m_end m))
                   (scan r (S (length pre)) s skip)).
  { intros c s pre skip IH.
    replace (S (length pre)) with (length (pre ++ [c]))
      by (rewrite length_app; simpl; lia).
    replace (pre ++ c :: s) with ((pre ++ [c]) ++ s) by (now rewrite <- app_assoc).
    apply IH. }
  assert (Hhere : forall s pre rest,
            rmatch r s (fun x => Some x) = Some rest ->
            let n := length s - length rest in
            length pre <= length pre + n
            /\ length pre + n <= length (pre ++ s)
            /\ firstn n s = slice (pre ++ s) (length pre) (length pre + n)).
  { intros s pre rest H n. apply rmatch_suffix in H as (s' & [p ->] & [= ->]).
    subst n. rewrite !length_app.
    replace (length p + length rest - length rest) with (length p) by lia.
    split; [lia|]. split; [lia|].
    unfold slice. rewrite skipn_app, Nat.sub_diag, skipn_all. simpl.
    f_equal. lia. }
  induction s as [|c s IH]; intros pre skip.
  - destruct skip as [|skip]; simpl; [|constructor].
    destruct (rmatch r [] (fun rest => Some rest)) as [rest|] eqn:E; [|constructor].
    constructor; [|constructor]. simpl. apply (Hhere [] pre rest E).
  - destruct skip as [|skip]; simpl.
    + destruct (rmatch r (c :: s) (fun rest => Some rest)) as [rest|] eqn:E.
      * constructor; [|now apply Hstep]. simpl. apply (Hhere (c :: s) pre rest E).
      * now apply Hstep.
    + now apply Hstep.
Qed.

Lemma finditer_inside (pattern text : str) :
  Forall (fun m => m_start m <= m_end m
                   /\ m_end m <= length text
                   /\ m_group m = slice text (m_start m) (m_end m))
         (finditer pattern text).
Proof.
  unfold finditer. destruct (compile pattern) as [r|]; [|constructor].
  exact (scan_inside r text [] 0).
Qed.

End MatcherFacts.

(* ===================================================================== *)
(** * Properties of idiom detection *)
(* ===================================================================== *)

Lemma insert_by_start_perm (x : span) (l : list span) :
  Permutation (x :: l) (insert_by_start x l).
Proof.
  induction l as [|y l IH]; simpl; [reflexivity|].
  destruct (start x <=? start y); [reflexivity|].
  rewrite perm_swap. now apply perm_skip.
Qed.

Lemma insert_by_start_hd (x y : span) (l : list span) :
  HdRel starts_le y l -> starts_le y x -> HdRel starts_le y (insert_by_start x l).
Proof.
  intros Hl Hyx. destruct l as [|z l]; simpl.
  - now constructor.
  - destruct (start x <=? start z); constructor; [exact Hyx|].
    now inversion Hl.
Qed.

Lemma insert_by_start_sorted (x : span) (l : list span) :
  Sorted starts_le l -> Sorted starts_le (insert_by_start x l).
Proof.
  induction 1 as [|y l Hs IH Hhd]; simpl.
  - repeat constructor.
  - destruct (Nat.leb_spec (start x) (start y)) as [Hle|Hgt].
    + constructor; [now constructor|]. now constructor.
    + constructor; [exact IH|].
      apply insert_by_start_hd; [exact Hhd|]. unfold starts_le. lia.
Qed.

Lemma sort_by_start_sorted (l : list span) : Sorted starts_le (sort_by_start l).
Proof.
  induction l as [|x l IH]; simpl; [constructor|].
  now apply insert_by_start_sorted.
Qed.

Lemma sort_by_start_perm (l : list span) : Permutation l (sort_by_start l).
Proof.
  induction l as [|x l IH]; simpl; [reflexivity|].
  rewrite <- insert_by_start_perm. now apply perm_skip.
Qed.

Lemma starts_le_trans : Relations_1.Transitive starts_le.
Proof. intros a b c. unfold starts_le. lia. Qed.

(** Every pattern of the three catalogues is in the fragment [compile]
    reads. *)
Lemma catalogue_compiles :
  forallb (fun entry => match compile (fst entry) with Some _ => true | None => false end)
          (english_idioms ++ telugu_idioms ++ hindi_idioms) = true.
Proof. vm_compute. reflexivity. Qed.

(** Every span [detect_idioms] returns lies inside the text and carries
    the text it covers. *)
Lemma detect_idioms_inside {U : Unicode} (text language : str) :
  Forall (span_over text) (detect_idioms text language).
Proof.
  unfold detect_idioms. destruct (patterns_for language) as [patterns|]; [|constructor].
  eapply Permutation_Forall; [apply sort_by_start_perm|].
  apply Forall_flat_map, Forall_forall. intros [pattern canonical_form] _.
  unfold spans_of. apply Forall_map, Forall_forall. intros m Hm.
  apply filter_In in Hm as [Hm _].
  pose proof (finditer_inside pattern text) as Hin.
  rewrite Forall_forall in Hin. exact (Hin m Hm).
Qed.

(** C7, as stated, fails: the matches of different patterns are
    collected and sorted, and none is dropped.  In
    "hit the jackpothrow in the towel" the pattern of "hit the nail on the
    head" matches the characters 0 to 15 and the pattern of "throw in the
    towel" the characters 14 to 32; both spans are returned. *)
Lemma detect_idioms_overlap :
  ~ (forall (U : Unicode) (text language : str),
       StronglySorted starts_le (detect_idioms text language)
       /\ non_overlapping (detect_idioms text language)).
Proof.
  intros H.
  destruct (H cpython_blocks (py "hit the jackpothrow in the towel") (py "eng_Latn"))
    as [_ Hno].
  assert (E : @detect_idioms cpython_blocks (py "hit the jackpothrow in the towel")
                (py "eng_Latn")
              = [ mkSpan (py "hit the nail on the head") 0 15 (py "hit the jackpot");
                  mkSpan (py "throw in the towel") 14 32 (py "throw in the towel") ])
    by (vm_compute; reflexivity).
  rewrite E in Hno. inversion Hno as [|a l Ha _]; subst.
  inversion Ha as [|b l' Hab _]; subst.
  apply Hab. unfold overlap. simpl. lia.
Qed.

(** C7, amended.  For every text and every language the list returned by
    [detect_idioms] is sorted by start offset, and it holds exactly the
    validated matches of all patterns of the language: spans of different
    patterns may overlap. *)
Theorem detect_idioms_sorted {U : Unicode} (text language : str) :
  StronglySorted starts_le (detect_idioms text language)
  /\ Permutation (flat_map (spans_of text) (catalogue language))
                 (detect_idioms text language).
Proof.
  unfold detect_idioms, catalogue.
  destruct (patterns_for language) as [patterns|].
  - split.
    + apply Sorted_StronglySorted; [exact starts_le_trans|].
      apply sort_by_start_sorted.
    + apply sort_by_start_perm.
  - split; constructor.
Qed.

(* ===================================================================== *)
(** * Properties of segmentation *)
(* ===================================================================== *)

Lemma whitespace_app (a b : str) : whitespace a -> whitespace b -> whitespace (a ++ b).
Proof. unfold whitespace. rewrite forallb_app. intros -> ->. reflexivity. Qed.

Lemma lstrip_split (s : str) : exists w, whitespace w /\ s = w ++ lstrip s.
Proof.
  induction s as [|c s (w & Hw & IH)]; simpl.
  - exists []. split; reflexivity.
  - destruct (isspace c) eqn:E.
    + exists (c :: w). split; [unfold whitespace; simpl; now rewrite E|].
      simpl. now rewrite <- IH.
    + exists []. split; reflexivity.
Qed.

Lemma rstrip_split (s : str) : exists w, whitespace w /\ s = rstrip s ++ w.
Proof.
  unfold rstrip. destruct (lstrip_split (rev s)) as (w & Hw & E).
  exists (rev w). split.
  - unfold whitespace in *. rewrite forallb_forall in *.
    intros c Hc. apply Hw. now apply in_rev.
  - rewrite <- (rev_involutive s) at 1. rewrite E at 1. apply rev_app_distr.
Qed.

(** A string is its stripped form between two runs of whitespace. *)
Lemma strip_split (s : str) :
  exists lead trail, whitespace lead /\ whitespace trail /\ s = lead ++ strip s ++ trail.
Proof.
  destruct (lstrip_split s) as (lead & Hlead & E1).
  destruct (rstrip_split (lstrip s)) as (trail & Htrail & E2).
  exists lead, trail. unfold strip. rewrite <- E2. auto.
Qed.

(** For spans that are not empty this is what sorted by start offset and
    pairwise non-overlapping mean together. *)
Lemma sorted_non_overlapping_ordered (idioms : list span) :
  StronglySorted starts_le idioms -> non_overlapping idioms ->
  Forall (fun i => start i < end_ i) idioms ->
  ordered_spans idioms.
Proof.
  unfold ordered_spans, non_overlapping.
  induction idioms as [|a l IH]; intros Hs Hno Hne; [constructor|].
  inversion Hs as [|? ? Hs' Hle]; subst.
  inversion Hno as [|? ? Hal Hno']; subst.
  inversion Hne as [|? ? Ha Hne']; subst.
  constructor; [now apply IH|].
  rewrite Forall_forall in *. intros b Hb.
  specialize (Hle b Hb). specialize (Hal b Hb). specialize (Hne' b Hb).
  unfold starts_le, overlap in *. lia.
Qed.

Lemma skipn_slice (text : str) (a b : nat) :
  a <= b -> skipn a text = slice text a b ++ skipn b text.
Proof.
  intros Hab. unfold slice.
  replace (skipn b text) with (skipn (b - a) (skipn a text)).
  - symmetry. apply firstn_skipn.
  - rewrite skipn_skipn. f_equal. lia.
Qed.

Lemma text_part_cases (piece : str) :
  (text_part piece = [] /\ whitespace piece)
  \/ exists lead trail,
       whitespace lead /\ whitespace trail
       /\ text_part piece = [TextPart (strip piece)]
       /\ piece = lead ++ strip piece ++ trail.
Proof.
  destruct (strip_split piece) as (lead & trail & Hlead & Htrail & E).
  unfold text_part. destruct (strip piece) as [|c stripped] eqn:Es.
  - left. split; [reflexivity|]. rewrite E. simpl. now apply whitespace_app.
  - right. exists lead, trail. auto.
Qed.

(** The loop of the segmenter from a cursor that no idiom starts
    before. *)
Lemma split_from_weave (text : str) (idioms : list span) :
  forall pos,
    Forall (span_over text) idioms -> ordered_spans idioms ->
    Forall (fun i => pos <= start i) idioms ->
    exists gaps trail,
      length gaps = length (split_from text pos idioms)
      /\ Forall whitespace (trail :: gaps)
      /\ weave gaps (map content (split_from text pos idioms)) trail = skipn pos text.
Proof.
  induction idioms as [|i rest IH]; intros pos Hover Hord Hpos; simpl.
  - destruct (Nat.ltb_spec pos (length text)) as [Hlt|Hge].
    + destruct (text_part_cases (skipn pos text))
        as [[-> Hw]|(lead & trail & Hlead & Htrail & -> & E)].
      * exists [], (skipn pos text). repeat split; repeat (assumption || constructor).
      * exists [lead], trail. simpl. repeat split; repeat (assumption || constructor).
        now symmetry.
    + exists [], []. rewrite skipn_all2 by lia. repeat split; repeat (assumption || constructor).
  - inversion Hover as [|? ? (Hse & Hel & Horig) Hover']; subst.
    inversion Hord as [|? ? Hord' Hafter]; subst.
    inversion Hpos as [|? ? Hps _]; subst.
    destruct (IH (end_ i) Hover' Hord' Hafter) as (gaps & trail & Hlen & Hws & Hweave).
    inversion Hws as [|? ? Htrail Hgaps]; subst.
    assert (Hskip : skipn pos text
                    = slice text pos (start i) ++ original i ++ skipn (end_ i) text).
    { rewrite (skipn_slice text pos (start i) Hps).
      rewrite (skipn_slice text (start i) (end_ i) Hse). now rewrite Horig. }
    assert (Hgap : (if pos <? start i then text_part (slice text pos (start i)) else [])
                   = text_part (slice text pos (start i))).
    { destruct (Nat.ltb_spec pos (start i)) as [_|Hge]; [reflexivity|].
      unfold slice. replace (start i - pos) with 0 by lia. reflexivity. }
    rewrite Hgap, Hskip.
    destruct (text_part_cases (slice text pos (start i)))
      as [[-> Hw]|(lead & tail & Hlead & Htail & -> & E)].
    + exists (slice text pos (start i) :: gaps), trail. simpl.
      rewrite Hlen, Hweave. repeat split; repeat (assumption || constructor).
    + exists (lead :: tail :: gaps), trail. simpl.
      rewrite Hlen, Hweave. rewrite E at 2. rewrite <- !app_assoc.
      repeat split; repeat (assumption || constructor).
Qed.

(** C9, as stated, fails: the segmenter strips every run of whitespace
    at a segment edge, whatever its length.  In "a  piece of cake" two
    spaces stand before the idiom; the parts are "a" and "piece of cake",
    and no choice of nothing or one space before the segments gives the
    text back. *)
Lemma split_sentence_loses_whitespace :
  ~ (forall (text : str) (idioms : list span),
       Forall (span_over text) idioms -> ordered_spans idioms ->
       exists gaps,
         length gaps = length (split_sentence_with_idioms text idioms)
         /\ Forall (fun g => g = [] \/ g = py " ") gaps
         /\ weave gaps (map content (split_sentence_with_idioms text idioms)) [] = text).
Proof.
  intros H.
  destruct (H (py "a  piece of cake")
              [mkSpan (py "piece of cake") 3 16 (py "piece of cake")])
    as (gaps & Hlen & Hgaps & Hweave).
  - repeat constructor.
  - repeat constructor.
  - destruct gaps as [|g1 [|g2 [|g3 gaps]]]; try discriminate Hlen.
    inversion Hgaps as [|? ? H1 Hgaps']; subst.
    inversion Hgaps' as [|? ? H2 _]; subst.
    destruct H1 as [-> | ->], H2 as [-> | ->]; vm_compute in Hweave; discriminate Hweave.
Qed.

(** C9, amended.  For every text and every list of spans over it in which
    each span ends before the next one starts, the contents of the
    segments reconstruct the text when the whitespace that was stripped
    is put back: a run of whitespace (of any length, possibly empty)
    before each segment and one after the last. *)
Theorem split_sentence_reconstructs (text : str) (idioms : list span) :
  Forall (span_over text) idioms -> ordered_spans idioms ->
  exists gaps trail,
    length gaps = length (split_sentence_with_idioms text idioms)
    /\ Forall whitespace (trail :: gaps)
    /\ weave gaps (map content (split_sentence_with_idioms text idioms)) trail = text.
Proof.
  intros Hover Hord. unfold split_sentence_with_idioms.
  destruct idioms as [|i rest].
  - exists [[]], []. simpl. rewrite app_nil_r. repeat split; repeat constructor.
  - apply (split_from_weave text (i :: rest) 0 Hover Hord).
    apply Forall_forall. intros; lia.
Qed.

Lemma split_sentence_reconstructs_witness :
  exists gaps trail,
    length gaps
      = length (split_sentence_with_idioms (py "a  piece of cake")
                  [mkSpan (py "piece of cake") 3 16 (py "piece of cake")])
    /\ Forall whitespace (trail :: gaps)
    /\ weave gaps
         (map content
            (split_sentence_with_idioms (py "a  piece of cake")
               [mkSpan (py "piece of cake") 3 16 (py "piece of cake")]))
         trail
       = py "a  piece of cake".
Proof.
  apply (split_sentence_reconstructs (py "a  piece of cake")
           [mkSpan (py "piece of cake") 3 16 (py "piece of cake")]).
  - repeat constructor.
  - repeat constructor.
Defined.

(* ===================================================================== *)
(** * Further properties of idiom detection *)
(* ===================================================================== *)

Lemma nodupb_sound (l : list str) : nodupb l = true -> NoDup l.
Proof.
  induction l as [|x l IH]; simpl; [constructor|].
  intros H. apply andb_true_iff in H as [Hx Hl]. constructor; [|auto].
  intros Hin. apply negb_true_iff in Hx.
  assert (E : mem_str x l = true).
  { apply existsb_exists. exists x. split; [exact Hin|apply eqb_str_refl]. }
  congruence.
Qed.

Lemma nodup_map_injective {A B : Type} (f : A -> B) (l : list A) (x y : A) :
  NoDup (map f l) -> In x l -> In y l -> f x = f y -> x = y.
Proof.
  induction l as [|z l IH]; simpl; [tauto|].
  intros Hnd Hx Hy E. inversion Hnd as [|? ? Hz Hnd']; subst.
  destruct Hx as [->|Hx], Hy as [->|Hy]; auto.
  - exfalso. apply Hz. rewrite E. now apply in_map.
  - exfalso. apply Hz. rewrite <- E. now apply in_map.
Qed.

Lemma strongly_sorted_filter {A : Type} (R : A -> A -> Prop) (p : A -> bool) (l : list A) :
  StronglySorted R l -> StronglySorted R (filter p l).
Proof.
  induction 1 as [|a l Hs IH Ha]; simpl; [constructor|].
  destruct (p a); [|exact IH].
  constructor; [exact IH|].
  rewrite Forall_forall in *. intros b Hb. apply filter_In in Hb as [Hb _]. auto.
Qed.

Lemma strongly_sorted_map {A B : Type} (R : B -> B -> Prop) (f : A -> B) (l : list A) :
  StronglySorted (fun a b => R (f a) (f b)) l -> StronglySorted R (map f l).
Proof.
  induction 1 as [|a l Hs IH Ha]; simpl; constructor; [exact IH|].
  now apply Forall_map.
Qed.

Lemma strongly_sorted_in {A : Type} (R : A -> A -> Prop) (l : list A) (a b : A) :
  StronglySorted R l -> In a l -> In b l -> a = b \/ R a b \/ R b a.
Proof.
  induction 1 as [|c l Hs IH Hc]; simpl; [tauto|].
  rewrite Forall_forall in Hc.
  intros [->|Ha] [->|Hb]; auto.
Qed.

Section DetectorFacts.
Context {U : Unicode}.

(** The matches of one scan follow each other: each starts where the one
    before it ended, or later. *)
Lemma scan_ordered (r : regex) :
  forall s pos skip,
    StronglySorted (fun a b => m_end a <= m_start b) (scan r pos s skip)
    /\ Forall (fun m => pos + skip <= m_start m) (scan r pos s skip).
Proof.
  induction s as [|c s IH]; intros pos skip.
  - destruct skip as [|skip]; simpl; [|split; constructor].
    destruct (rmatch r [] (fun rest => Some rest)); split; repeat constructor.
    simpl. lia.
  - destruct skip as [|skip]; simpl.
    + destruct (rmatch r (c :: s) (fun rest => Some rest)) as [rest|].
      * destruct (IH (S pos) (length (c :: s) - length rest - 1)) as [Hs Hf].
        split; constructor; simpl; try lia; auto.
        -- eapply Forall_impl; [|exact Hf]. simpl. intros m. lia.
        -- eapply Forall_impl; [|exact Hf]. simpl. intros m. lia.
      * destruct (IH (S pos) 0) as [Hs Hf]. split; [exact Hs|].
        eapply Forall_impl; [|exact Hf]. simpl. intros m. lia.
    + destruct (IH (S pos) skip) as [Hs Hf]. split; [exact Hs|].
      eapply Forall_impl; [|exact Hf]. simpl. intros m. lia.
Qed.

Lemma spans_of_ordered (text : str) (entry : str * str) :
  ordered_spans (spans_of text entry).
Proof.
  destruct entry as [pattern canonical_form]. unfold ordered_spans, spans_of.
  apply strongly_sorted_map. simpl. apply strongly_sorted_filter.
  unfold finditer. destruct (compile pattern) as [r|]; [|constructor].
  apply scan_ordered.
Qed.

Lemma spans_of_idiom (text : str) (entry : str * str) (a : span) :
  In a (spans_of text entry) -> idiom a = snd entry.
Proof.
  destruct entry as [pattern canonical_form]. unfold spans_of.
  intros H. apply in_map_iff in H as (m & <- & _). reflexivity.
Qed.

Lemma patterns_for_cases (language : str) :
  catalogue language = english_idioms \/ catalogue language = telugu_idioms
  \/ catalogue language = hindi_idioms \/ catalogue language = [].
Proof.
  unfold catalogue, patterns_for.
  destruct (eqb_str language (py "eng_Latn") || eqb_str language (py "eng")); [auto|].
  destruct (eqb_str language (py "tel_Telu") || eqb_str language (py "tel")); [auto|].
  destruct (eqb_str language (py "hin_Deva") || eqb_str language (py "hin")); auto.
Qed.

Lemma catalogue_canonical_nodup (language : str) :
  NoDup (map snd (catalogue language)).
Proof.
  destruct (patterns_for_cases language) as [-> | [-> | [-> | ->]]];
    apply nodupb_sound; vm_compute; reflexivity.
Qed.

Lemma detect_idioms_in (text language : str) (a : span) :
  In a (detect_idioms text language) ->
  exists entry, In entry (catalogue language) /\ In a (spans_of text entry).
Proof.
  unfold detect_idioms, catalogue.
  destruct (patterns_for language) as [patterns|]; [|intros []].
  intros H. eapply Permutation_in in H; [|symmetry; apply sort_by_start_perm].
  apply in_flat_map in H. exact H.
Qed.

End DetectorFacts.

(** X1.  A match that no word follows is accepted as an idiom unless the
    idiom is "break the ice" (whose rule has no such guard), and so is
    every match of an idiom other than the three that have a rule: the
    rules of "out of the blue" and "piece of cake" stand under
    [if words_after], so "piece of cake" at the end of a text is an idiom
    even after "chocolate". *)
Theorem validate_accepts_without_following_word {U : Unicode}
  (text : str) (m : rematch) (idiom : str) :
  ~ In idiom [py "out of the blue"; py "piece of cake"; py "break the ice"]
  \/ (idiom <> py "break the ice" /\ split (skipn (m_end m) text) = []) ->
  _validate_idiom_context text m idiom = true.
Proof.
  intros H. unfold _validate_idiom_context.
  assert (Hice : eqb_str idiom (py "break the ice") = false).
  { destruct (eqb_str idiom (py "break the ice")) eqn:E; [|reflexivity].
    apply eqb_str_spec in E. destruct H as [H|[H _]]; [|contradiction].
    exfalso. apply H. simpl. auto. }
  rewrite Hice. destruct H as [H|[_ H]].
  - destruct (eqb_str idiom (py "out of the blue")) eqn:E1.
    { apply eqb_str_spec in E1. exfalso. apply H. simpl. auto. }
    destruct (eqb_str idiom (py "piece of cake")) eqn:E2.
    { apply eqb_str_spec in E2. exfalso. apply H. simpl. auto. }
    reflexivity.
  - rewrite H. simpl. rewrite !andb_false_r. reflexivity.
Qed.

Lemma validate_accepts_without_following_word_witness :
  @_validate_idiom_context cpython_blocks (py "chocolate! piece of cake")
     (mkMatch 11 24 (py "piece of cake")) (py "piece of cake") = true.
Proof.
  apply (@validate_accepts_without_following_word cpython_blocks).
  right. split; [vm_compute; discriminate|vm_compute; reflexivity].
Defined.

Lemma patterns_for_unsupported {U : Unicode} (language : str) :
  ~ In language detector_codes -> patterns_for language = None.
Proof.
  intros H. unfold patterns_for.
  assert (Hne : forall code, In code detector_codes -> eqb_str language code = false).
  { intros code Hc. destruct (eqb_str language code) eqn:E; [|reflexivity].
    apply eqb_str_spec in E. subst. contradiction. }
  rewrite !Hne; [reflexivity| | | | | |]; vm_compute; auto 7.
Qed.

(** X2.  [detect_idioms] returns the empty list for every language code
    other than the six it tests for; the aliases [english], [hindi] and
    [telugu] that [translate] accepts are among the codes without a
    catalogue. *)
Theorem detect_idioms_unsupported_language {U : Unicode} (text language : str) :
  ~ In language detector_codes -> detect_idioms text language = [].
Proof.
  intros H. unfold detect_idioms.
  now rewrite (patterns_for_unsupported language H).
Qed.

Lemma detect_idioms_unsupported_language_witness :
  @detect_idioms cpython_blocks (py "It was a piece of cake") (py "english") = [].
Proof.
  apply (@detect_idioms_unsupported_language cpython_blocks).
  vm_compute. intros H. repeat (destruct H as [H|H]; [discriminate H|]). exact H.
Defined.

(** X3.  Every span [detect_idioms] returns lies inside the text
    ([start <= end <= len(text)]), its ['original'] is the text between
    its offsets, and its ['idiom'] is a canonical form of the catalogue
    of the language. *)
Theorem detect_idioms_spans_well_formed {U : Unicode} (text language : str) :
  Forall (fun s => span_over text s /\ In (idiom s) (map snd (catalogue language)))
         (detect_idioms text language).
Proof.
  apply Forall_forall. intros a Ha. split.
  - pose proof (detect_idioms_inside text language) as H.
    rewrite Forall_forall in H. auto.
  - apply detect_idioms_in in Ha as (entry & He & Ha).
    rewrite (spans_of_idiom _ _ _ Ha). now apply in_map.
Qed.

(** X4.  Two spans of one detection pass that overlap belong to different
    idioms: the matches of one pattern never overlap, and no two patterns
    of a catalogue share a canonical form. *)
Theorem overlapping_spans_differ {U : Unicode} (text language : str) (a b : span) :
  In a (detect_idioms text language) -> In b (detect_idioms text language) ->
  overlap a b -> idiom a = idiom b -> a = b.
Proof.
  intros Ha Hb Hov Hid.
  apply detect_idioms_in in Ha as (ea & Hea & Ha).
  apply detect_idioms_in in Hb as (eb & Heb & Hb).
  assert (E : ea = eb).
  { apply (nodup_map_injective snd (catalogue language));
      auto using catalogue_canonical_nodup.
    now rewrite <- (spans_of_idiom _ _ _ Ha), <- (spans_of_idiom _ _ _ Hb). }
  subst eb.
  destruct (strongly_sorted_in _ _ a b (spans_of_ordered text ea) Ha Hb)
    as [E|[E|E]]; [exact E| |]; unfold overlap in Hov; lia.
Qed.

Lemma overlapping_spans_differ_witness :
  mkSpan (py "hit the nail on the head") 0 15 (py "hit the jackpot")
  = mkSpan (py "hit the nail on the head") 0 15 (py "hit the jackpot").
Proof.
  apply (@overlapping_spans_differ cpython_blocks
           (py "hit the jackpothrow in the towel") (py "eng_Latn")).
  - vm_compute. left. reflexivity.
  - vm_compute. left. reflexivity.
  - unfold overlap. simpl. lia.
  - reflexivity.
Defined.

(* ===================================================================== *)
(** * Further properties of segmentation and joining *)
(* ===================================================================== *)

Lemma lstrip_head (s : str) (c : Z) (t : str) :
  lstrip s = c :: t -> isspace c = false.
Proof.
  induction s as [|x s IH]; simpl; [discriminate|].
  destruct (isspace x) eqn:E; [exact IH|]. intros [= <- _]. exact E.
Qed.

Lemma lstrip_fixed (s : str) : lstrip (lstrip s) = lstrip s.
Proof.
  destruct (lstrip s) as [|c t] eqn:E; [reflexivity|].
  simpl. now rewrite (lstrip_head _ _ _ E).
Qed.

Lemma lstrip_snoc (a : str) (c : Z) :
  isspace c = false -> lstrip (a ++ [c]) = lstrip a ++ [c].
Proof.
  intros Hc. induction a as [|x a IH]; simpl; [now rewrite Hc|].
  destruct (isspace x); [exact IH|reflexivity].
Qed.

Lemma rstrip_cons (c : Z) (t : str) :
  isspace c = false -> rstrip (c :: t) = c :: rstrip t.
Proof.
  intros Hc. unfold rstrip. simpl. rewrite (lstrip_snoc _ _ Hc), rev_app_distr.
  reflexivity.
Qed.

Lemma rstrip_fixed (s : str) : rstrip (rstrip s) = rstrip s.
Proof. unfold rstrip. now rewrite rev_involutive, lstrip_fixed. Qed.

(** [s.strip().strip() == s.strip()]. *)
Lemma strip_fixed (s : str) : strip (strip s) = strip s.
Proof.
  unfold strip. destruct (lstrip s) as [|c t] eqn:E; [reflexivity|].
  pose proof (lstrip_head _ _ _ E) as Hc.
  rewrite (rstrip_cons _ _ Hc). simpl. rewrite Hc.
  rewrite <- (rstrip_cons _ _ Hc). apply rstrip_fixed.
Qed.

Lemma text_part_shape (piece : str) (p : part) :
  In p (text_part piece) -> exists c, p = TextPart c /\ c <> [] /\ strip c = c.
Proof.
  unfold text_part. destruct (strip piece) as [|x stripped] eqn:E; [intros []|].
  intros [<-|[]]. exists (x :: stripped). split; [reflexivity|].
  split; [discriminate|]. rewrite <- E. apply strip_fixed.
Qed.

Lemma text_part_no_idiom (piece : str) : filter is_idiom_part (text_part piece) = [].
Proof. unfold text_part. now destruct (strip piece). Qed.

Lemma split_from_idiom_parts (text : str) (idioms : list span) :
  forall pos, filter is_idiom_part (split_from text pos idioms) = map idiom_part_of idioms.
Proof.
  induction idioms as [|i rest IH]; intros pos; simpl.
  - destruct (pos <? length text); [apply text_part_no_idiom|reflexivity].
  - rewrite filter_app. simpl. rewrite IH.
    destruct (pos <? start i); [now rewrite text_part_no_idiom|reflexivity].
Qed.

Lemma split_from_text_parts (text : str) (idioms : list span) :
  forall pos c,
    In (TextPart c) (split_from text pos idioms) -> c <> [] /\ strip c = c.
Proof.
  induction idioms as [|i rest IH]; intros pos c; simpl.
  - destruct (pos <? length text); [|intros []].
    intros H. apply text_part_shape in H as (c' & [= ->] & H). exact H.
  - intros H. apply in_app_or in H as [H|[H|H]].
    + destruct (pos <? start i); [|destruct H].
      apply text_part_shape in H as (c' & [= ->] & H). exact H.
    + discriminate H.
    + eapply IH, H.
Qed.

(** X5.  Whatever the spans are (sorted or not, overlapping or not), the
    segmenter emits exactly one idiom part per span, in the order of the
    spans, with the span's ['original'] as content and its ['idiom'] as
    canonical form. *)
Theorem split_sentence_keeps_every_idiom (text : str) (idioms : list span) :
  filter is_idiom_part (split_sentence_with_idioms text idioms) = map idiom_part_of idioms.
Proof.
  destruct idioms as [|i rest]; [reflexivity|].
  apply (split_from_idiom_parts text (i :: rest) 0).
Qed.

(** X6.  When there is at least one idiom, every text part of the
    segmentation is non-empty and has no whitespace at either end: pieces
    of text that strip to nothing are dropped.  (Without idioms the text
    is returned as one part, as it is.) *)
Theorem split_sentence_text_parts_stripped (text : str) (idioms : list span) (c : str) :
  idioms <> [] ->
  In (TextPart c) (split_sentence_with_idioms text idioms) ->
  c <> [] /\ strip c = c.
Proof.
  intros Hne. destruct idioms as [|i rest]; [contradiction|].
  apply (split_from_text_parts text (i :: rest) 0).
Qed.

Lemma split_sentence_text_parts_stripped_witness :
  py "Well,  it was a" <> [] /\ strip (py "Well,  it was a") = py "Well,  it was a".
Proof.
  apply (split_sentence_text_parts_stripped (py " Well,  it was a piece of cake ")
           [mkSpan (py "piece of cake") 17 30 (py "piece of cake")]).
  - discriminate.
  - vm_compute. left. reflexivity.
Defined.



Lemma join_space_glue (a b : str) (l : list str) :
  join_space ((a ++ chr " " :: b) :: l) = a ++ chr " " :: join_space (b :: l).
Proof.
  destruct l as [|x l]; simpl; [reflexivity|].
  rewrite <- app_assoc. reflexivity.
Qed.

Lemma join_loop_simple (result : str) (parts : list str) :
  join_loop false result parts = inr (join_space (filter nonempty (result :: parts))).
Proof.
  revert result. induction parts as [|part rest IH]; intros result.
  - simpl. now destruct result.
  - cbn [join_loop]. destruct result as [|r result], part as [|c part]; rewrite IH.
    + reflexivity.
    + reflexivity.
    + rewrite app_nil_r. reflexivity.
    + f_equal. exact (join_space_glue (r :: result) (c :: part) (filter nonempty rest)).
Qed.

Lemma join_loop_english_total (result : str) (parts : list str) :
  Forall (fun p => p <> []) parts ->
  exists joined, join_loop true result parts = inr joined.
Proof.
  intros H. revert result. induction H as [|part rest Hp _ IH]; intros result.
  - now exists result.
  - cbn [join_loop]. destruct result as [|r result]; [apply IH|].
    destruct (mem_chr (last (r :: result) 0%Z) punctuation); [apply IH|].
    destruct part as [|c part]; [contradiction|].
    destruct (mem_chr c punctuation); apply IH.
Qed.

(** X8.  For every target other than [eng_Latn] and [eng] the join is the
    non-empty parts separated by single spaces, stripped: empty parts
    leave no double space, and the function never raises. *)
Theorem join_parts_simple_spacing (parts : list str) (target_lang : str) :
  eqb_str target_lang (py "eng_Latn") || eqb_str target_lang (py "eng") = false ->
  _join_parts_intelligently parts target_lang
    = inr (strip (join_space (filter nonempty parts))).
Proof.
  intros H. unfold _join_parts_intelligently. destruct parts as [|first rest].
  - reflexivity.
  - rewrite H, join_loop_simple. reflexivity.
Qed.

Lemma join_parts_simple_spacing_witness :
  _join_parts_intelligently [py "मैंने"; py ""; py "बहुत आसान"; py "।"] (py "hin_Deva")
  = inr (py "मैंने बहुत आसान ।").
Proof.
  apply (join_parts_simple_spacing [py "मैंने"; py ""; py "बहुत आसान"; py "।"]
           (py "hin_Deva")).
  vm_compute. reflexivity.
Defined.

(** X9.  For every target, English included, the join returns a string
    when no part after the first one is empty; the only exception it can
    raise is IndexError. *)
Theorem join_parts_total_on_nonempty_parts (first : str) (rest : list str)
  (target_lang : str) :
  Forall (fun p => p <> []) rest ->
  (exists joined, _join_parts_intelligently (first :: rest) target_lang = inr joined)
  /\ forall parts e,
       _join_parts_intelligently parts target_lang = inl e -> e = IndexError.
Proof.
  intros H. split; [|intros parts e; apply join_parts_raises].
  unfold _join_parts_intelligently.
  destruct (eqb_str target_lang (py "eng_Latn") || eqb_str target_lang (py "eng")).
  - destruct (join_loop_english_total first rest H) as (joined & ->). eauto.
  - destruct (join_loop_simple_total first rest) as (joined & ->). eauto.
Qed.

Lemma join_parts_total_on_nonempty_parts_witness :
  exists joined,
    _join_parts_intelligently [py "Well"; py ","; py "it was easy"; py "."] (py "eng_Latn")
      = inr joined.
Proof.
  apply (proj1 (join_parts_total_on_nonempty_parts (py "Well")
                  [py ","; py "it was easy"; py "."] (py "eng_Latn")
                  ltac:(repeat constructor; discriminate))).
Defined.

(** X10.  A string the join returns has no whitespace at either end. *)
Theorem join_parts_result_stripped (parts : list str) (target_lang joined : str) :
  _join_parts_intelligently parts target_lang = inr joined -> strip joined = joined.
Proof.
  unfold _join_parts_intelligently. destruct parts as [|first rest].
  - intros [= <-]. reflexivity.
  - destruct (join_loop _ first rest); [discriminate|].
    intros [= <-]. apply strip_fixed.
Qed.

Lemma join_parts_result_stripped_witness :
  strip (py "a b") = py "a b".
Proof.
  apply (join_parts_result_stripped [py " a"; py "b "] (py "tel_Telu")).
  vm_compute. reflexivity.
Defined.

(* ===================================================================== *)
(** * Further properties of plain-mode translation *)
(* ===================================================================== *)

Lemma lang_map_values (k c : str) :
  dict_get lang_map k = Some c -> In c canonical_codes.
Proof.
  unfold lang_map, dict_get.
  repeat match goal with
         | |- (if ?b then _ else _) = _ -> _ => destruct b
         end; try discriminate; intros [= <-]; vm_compute; auto.
Qed.

Lemma ascii_lower_no_capital (c : Z) : in_range 0x41 0x5A (ascii_lower c) = false.
Proof.
  unfold ascii_lower, in_range.
  destruct ((0x41 <=? c)%Z && (c <=? 0x5A)%Z) eqn:E.
  - apply andb_true_iff in E as [H1 H2]. apply Z.leb_le in H1, H2.
    apply andb_false_iff. right. apply Z.leb_gt. lia.
  - exact E.
Qed.

Lemma cpython_blocks_lower : python_lower cpython_blocks.
Proof.
  split.
  - intros s c Hc. simpl in Hc. apply in_map_iff in Hc as (x & <- & _).
    apply ascii_lower_no_capital.
  - reflexivity.
Qed.

Section PlainFacts.
Context {U : Unicode}.
Variable nllb : list call -> call -> option str.

(** The two shapes of a run of [translate]: the first call alone, its
    output returned with the flag false; or the first call and a call to
    the base model, whose output is returned with the flag true. *)
Lemma translate_cases (text source_lang target_lang : str) (use_fallback : bool)
  (log : list call) :
  let tgt := normalize_lang target_lang in
  let first := mkCall FineTuned text (normalize_lang source_lang) tgt in
  let run := translate nllb text source_lang target_lang use_fallback log in
  (snd run = log ++ [first]
   /\ ((nllb log first = None /\ fst run = inl CapabilityFailure)
       \/ exists decoded,
            nllb log first = Some decoded /\ fst run = inr (strip decoded, false)
            /\ (use_fallback = true ->
                detect_script (strip decoded) = get_expected_script tgt
                \/ detected_source (detect_script (strip decoded)) = None
                \/ detected_source (detect_script (strip decoded)) = Some tgt)))
  \/ (use_fallback = true
      /\ exists decoded detected,
           nllb log first = Some decoded
           /\ detect_script (strip decoded) <> get_expected_script tgt
           /\ detected_source (detect_script (strip decoded)) = Some detected
           /\ detected <> tgt
           /\ let second := mkCall BaseNLLB (strip decoded) detected tgt in
              snd run = log ++ [first; second]
              /\ ((nllb (log ++ [first]) second = None /\ fst run = inl CapabilityFailure)
                  \/ exists decoded2,
                       nllb (log ++ [first]) second = Some decoded2
                       /\ fst run = inr (strip decoded2, true))).
Proof.
  intros tgt first run. subst run. rewrite translate_run. unfold translate_outcome.
  fold tgt first.
  destruct (nllb log first) as [decoded|] eqn:E1; [|left; simpl; auto].
  destruct (script_eqb _ _) eqn:Eq.
  { left. split; [reflexivity|]. right. exists decoded.
    apply script_eqb_spec in Eq. simpl. auto. }
  destruct use_fallback.
  2:{ left. split; [reflexivity|]. right. exists decoded. simpl.
      repeat split; auto. discriminate. }
  destruct (detected_source _) as [detected|] eqn:Ed.
  2:{ left. split; [reflexivity|]. right. exists decoded. simpl. auto. }
  destruct (eqb_str detected tgt) eqn:Et.
  { apply eqb_str_spec in Et. subst detected.
    left. split; [reflexivity|]. right. exists decoded. simpl. auto. }
  right. split; [reflexivity|]. exists decoded, detected.
  assert (Hmis : detect_script (strip decoded) <> get_expected_script tgt).
  { intros H. apply script_eqb_spec in H. congruence. }
  assert (Hneq : detected <> tgt).
  { intros H. apply eqb_str_spec in H. congruence. }
  cbv zeta.
  destruct (nllb (log ++ [first]) (mkCall BaseNLLB (strip decoded) detected tgt))
    as [decoded2|] eqn:E2; simpl; repeat split; auto;
    solve [right; eauto | left; auto].
Qed.

End PlainFacts.

(** X11.  With [use_fallback=False] the base model is never called: the
    run is the first call alone, and when the model answers, its stripped
    output is returned with the flag false whatever its script is. *)
Theorem translate_without_fallback {U : Unicode}
  (nllb : list call -> call -> option str)
  (text source_lang target_lang : str) (log : list call) :
  let first := mkCall FineTuned text (normalize_lang source_lang)
                      (normalize_lang target_lang) in
  calls_of (translate nllb text source_lang target_lang false) log = [first]
  /\ forall decoded,
       nllb log first = Some decoded ->
       translate nllb text source_lang target_lang false log
         = (inr (strip decoded, false), log ++ [first]).
Proof.
  intros first. split.
  - apply calls_of_app. rewrite translate_run. unfold translate_outcome. fold first.
    destruct (nllb log first); [|reflexivity]. now destruct (script_eqb _ _).
  - intros decoded H. rewrite translate_run. unfold translate_outcome. fold first.
    rewrite H. now destruct (script_eqb _ _).
Qed.

Lemma translate_without_fallback_witness :
  @translate cpython_blocks (constant_model (py "नमस्ते ")) (py "Hello") (py "eng")
     (py "tel") false []
  = (inr (py "नमस्ते", false),
     [mkCall FineTuned (py "Hello") (py "eng_Latn") (py "tel_Telu")]).
Proof.
  apply (proj2 (@translate_without_fallback cpython_blocks
                  (constant_model (py "नमस्ते ")) (py "Hello") (py "eng") (py "tel") [])
               (py "नमस्ते ")).
  reflexivity.
Defined.

(** X12.  Every call [translate] makes to the base model asks for a
    translation between two different languages: its target is the
    normalised target of the request, its source is one of the three
    canonical codes and differs from the target, and its text is the
    stripped output of the first call, whose script implies that source. *)
Theorem fallback_call_shape {U : Unicode}
  (nllb : list call -> call -> option str)
  (text source_lang target_lang : str) (use_fallback : bool) (log : list call)
  (c : call) :
  In c (calls_of (translate nllb text source_lang target_lang use_fallback) log) ->
  call_engine c = BaseNLLB ->
  use_fallback = true
  /\ call_tgt c = normalize_lang target_lang
  /\ call_src c <> call_tgt c
  /\ In (call_src c) canonical_codes
  /\ exists decoded,
       nllb log (mkCall FineTuned text (normalize_lang source_lang)
                        (normalize_lang target_lang)) = Some decoded
       /\ call_text c = strip decoded
       /\ detected_source (detect_script (call_text c)) = Some (call_src c).
Proof.
  intros Hin Heng.
  destruct (translate_cases nllb text source_lang target_lang use_fallback log)
    as [[Hsnd _]|(Huf & decoded & detected & H1 & _ & Hd & Hneq & Hsnd & _)].
  - rewrite (calls_of_app _ _ _ Hsnd) in Hin. destruct Hin as [<-|[]]. discriminate.
  - rewrite (calls_of_app _ _ _ Hsnd) in Hin.
    destruct Hin as [<-|[<-|[]]]; [discriminate|]. simpl.
    repeat split; auto.
    + destruct (detect_script (strip decoded)); simpl in Hd; try discriminate;
        injection Hd as <-; vm_compute; auto.
    + exists decoded. auto.
Qed.

Lemma fallback_call_shape_witness :
  py "hin_Deva" <> py "eng_Latn".
Proof.
  refine (proj1 (proj2 (proj2 (@fallback_call_shape cpython_blocks
            (constant_model (py "नमस्ते")) (py "Bonjour") (py "fra_Latn") (py "english")
            true [] (mkCall BaseNLLB (py "नमस्ते") (py "hin_Deva") (py "eng_Latn")) _ _)))).
  - vm_compute. right. left. reflexivity.
  - reflexivity.
Defined.

(** X13.  The flag [translate] returns tells whether the base model was
    used: it is true exactly when the run holds a call to the base model,
    and then the text returned is the stripped output of that call. *)
Theorem translate_flag_reports_fallback {U : Unicode}
  (nllb : list call -> call -> option str)
  (text source_lang target_lang : str) (use_fallback : bool) (log : list call)
  (out : str) (flag : bool) :
  fst (translate nllb text source_lang target_lang use_fallback log) = inr (out, flag) ->
  (flag = true <->
   exists c,
     In c (calls_of (translate nllb text source_lang target_lang use_fallback) log)
     /\ call_engine c = BaseNLLB)
  /\ strip out = out.
Proof.
  intros Hres.
  destruct (translate_cases nllb text source_lang target_lang use_fallback log)
    as [[Hsnd [[_ Hf]|(decoded & _ & Hf & _)]]
       |(_ & decoded & detected & _ & _ & _ & _ & Hsnd & [[_ Hf]|(decoded2 & _ & Hf)])];
    rewrite Hf in Hres; try discriminate; injection Hres as <- <-;
    rewrite (calls_of_app _ _ _ Hsnd).
  - split; [|apply strip_fixed]. split; [discriminate|].
    intros (c & [<-|[]] & Hc). discriminate.
  - split; [|apply strip_fixed]. split; [|reflexivity].
    intros _. eexists. split; [right; left; reflexivity|reflexivity].
Qed.

Lemma translate_flag_reports_fallback_witness :
  (true = true <->
   exists c,
     In c (calls_of (@translate cpython_blocks (constant_model (py " Hello "))
                       (py "नमस्ते") (py "hin") (py "tel") true) [])
     /\ call_engine c = BaseNLLB)
  /\ strip (py "Hello") = py "Hello".
Proof.
  apply (@translate_flag_reports_fallback cpython_blocks (constant_model (py " Hello "))
           (py "नमस्ते") (py "hin") (py "tel") true []).
  vm_compute. reflexivity.
Defined.

Lemma no_capital_key (k : str) :
  (forall c, In c k -> in_range 0x41 0x5A c = false) ->
  existsb (in_range 0x41 0x5A) k = true -> False.
Proof.
  intros H E. apply existsb_exists in E as (c & Hc & E). rewrite (H c Hc) in E.
  discriminate.
Qed.

Section LowerFacts.
Context {U : Unicode}.
Hypothesis Hlower : python_lower U.

(** Inside [translate] the expected script is Unknown for every target:
    a normalised code is either a canonical code, which the lookup of
    [get_expected_script] lower-cases and misses, or a code whose
    lower-case form is in neither table. *)
Lemma expected_script_of_normalised (target_lang : str) :
  get_expected_script (normalize_lang target_lang) = Unknown.
Proof.
  destruct Hlower as [H1 H2]. unfold normalize_lang, dict_get_default.
  destruct (dict_get lang_map (lower target_lang)) as [c|] eqn:E.
  - apply lang_map_values in E. unfold get_expected_script.
    destruct E as [<-|[<-|[<-|[]]]]; rewrite H2 by reflexivity; reflexivity.
  - unfold get_expected_script, dict_get_default.
    revert E. generalize (H1 target_lang). generalize (lower target_lang).
    intros k Hcap E. unfold script_map, dict_get.
    repeat match goal with
           | |- context [eqb_str ?key k] =>
             let Ek := fresh "Ek" in
             destruct (eqb_str key k) eqn:Ek;
             [ apply eqb_str_spec in Ek; subst k; exfalso;
               first [ apply (no_capital_key _ Hcap); reflexivity
                     | vm_compute in E; discriminate E ]
             | ]
           end.
    reflexivity.
Qed.

Lemma normalize_lang_fixed (code : str) :
  normalize_lang (normalize_lang code) = normalize_lang code.
Proof.
  destruct Hlower as [_ H2].
  assert (Hcases : normalize_lang code = code
                   \/ In (normalize_lang code) canonical_codes).
  { unfold normalize_lang, dict_get_default.
    destruct (dict_get lang_map (lower code)) as [c|] eqn:E; [right|left; reflexivity].
    eapply lang_map_values, E. }
  destruct Hcases as [H|H]; [rewrite H; exact H|].
  revert H. generalize (normalize_lang code). intros c Hc. unfold normalize_lang.
  destruct Hc as [<-|[<-|[<-|[]]]]; rewrite H2 by reflexivity; reflexivity.
Qed.

End LowerFacts.

(** X14.  Because [get_expected_script] lower-cases its argument, the
    expected script that [translate] computes for its normalised target
    is Unknown for every target code.  So, when the first call is
    answered, the base model is called exactly when the script of the
    first output implies a language (it is Latin, Devanagari or Telugu)
    and that language is not the target. *)
Theorem translate_fallback_decision {U : Unicode}
  (nllb : list call -> call -> option str)
  (text source_lang target_lang : str) (log : list call) (decoded : str) :
  python_lower U ->
  nllb log (mkCall FineTuned text (normalize_lang source_lang)
                   (normalize_lang target_lang)) = Some decoded ->
  get_expected_script (normalize_lang target_lang) = Unknown
  /\ (length (calls_of (translate nllb text source_lang target_lang true) log) = 2
      <-> exists detected,
            detected_source (detect_script (strip decoded)) = Some detected
            /\ detected <> normalize_lang target_lang).
Proof.
  intros Hlower Hfirst.
  pose proof (expected_script_of_normalised Hlower target_lang) as Hexp.
  split; [exact Hexp|].
  destruct (translate_cases nllb text source_lang target_lang true log)
    as [[Hsnd [[Hnone _]|(d & Hd & _ & Hwhy)]]
       |(_ & d & detected & Hd & _ & Hdet & Hneq & Hsnd & _)];
    rewrite (calls_of_app _ _ _ Hsnd); try congruence.
  - assert (d = decoded) by congruence. subst d.
    split; [discriminate|]. intros (detected & Hdet & Hneq).
    destruct (Hwhy eq_refl) as [H|[H|H]]; try congruence.
    rewrite Hexp in H. rewrite H in Hdet. discriminate.
  - assert (d = decoded) by congruence. subst d.
    split; [|reflexivity]. intros _. exists detected. auto.
Qed.

Lemma translate_fallback_decision_witness :
  @get_expected_script cpython_blocks (@normalize_lang cpython_blocks (py "hindi")) = Unknown
  /\ (length (calls_of (@translate cpython_blocks (constant_model (py "Hello"))
                          (py "Hello") (py "eng") (py "hindi") true) []) = 2
      <-> exists detected,
            detected_source (@detect_script cpython_blocks (strip (py "Hello")))
              = Some detected
            /\ detected <> @normalize_lang cpython_blocks (py "hindi")).
Proof.
  apply (@translate_fallback_decision cpython_blocks (constant_model (py "Hello"))
           (py "Hello") (py "eng") (py "hindi") [] (py "Hello")).
  - exact cpython_blocks_lower.
  - reflexivity.
Defined.

(** X15.  [translate] may be given codes that are already normalised:
    normalising a code twice gives what normalising it once gives, so a
    request with the normalised codes runs exactly as the request with
    the codes as given. *)
Theorem translate_on_normalised_codes {U : Unicode}
  (nllb : list call -> call -> option str)
  (text source_lang target_lang : str) (use_fallback : bool) (log : list call) :
  python_lower U ->
  translate nllb text (normalize_lang source_lang) (normalize_lang target_lang)
            use_fallback log
  = translate nllb text source_lang target_lang use_fallback log.
Proof.
  intros Hlower. rewrite !translate_run. unfold translate_outcome.
  now rewrite !(normalize_lang_fixed Hlower).
Qed.

Lemma translate_on_normalised_codes_witness :
  @translate cpython_blocks echo_model (py "Hello")
     (@normalize_lang cpython_blocks (py "English")) (@normalize_lang cpython_blocks (py "TEL"))
     true []
  = @translate cpython_blocks echo_model (py "Hello") (py "English") (py "TEL") true [].
Proof.
  apply (@translate_on_normalised_codes cpython_blocks echo_model).
  exact cpython_blocks_lower.
Defined.

(* ===================================================================== *)
(** * Further properties of the script classifier *)
(* ===================================================================== *)

Lemma count_app (p : Z -> bool) (a b : str) : count p (a ++ b) = count p a + count p b.
Proof. unfold count. now rewrite filter_app, length_app. Qed.

Lemma count_perm (p : Z -> bool) (a b : str) :
  Permutation a b -> count p a = count p b.
Proof.
  unfold count. induction 1 as [|x a b _ IH|x y a|a b c _ IH1 _ IH2]; simpl.
  - reflexivity.
  - destruct (p x); simpl; now rewrite IH.
  - destruct (p x), (p y); reflexivity.
  - now rewrite IH1.
Qed.

(** X16.  The classification depends only on which characters occur and
    how often: it is the same for every reordering of a text, and
    characters that are neither alphabetic nor in the Telugu or the
    Devanagari block (digits, ASCII punctuation, spaces) do not change
    it, wherever they stand. *)
Theorem detect_script_counts_only {U : Unicode} (text extra text' : str) :
  forallb neutral extra = true ->
  Permutation (text ++ extra) text' ->
  detect_script text' = detect_script text.
Proof.
  intros Hn Hp.
  assert (Hc : forall p : Z -> bool,
            (forall c, neutral c = true -> p c = false) -> count p text' = count p text).
  { intros p Hpn. rewrite <- (count_perm p _ _ Hp), count_app.
    rewrite (count_none p extra); [lia|].
    revert Hn. apply forallb_impl. intros c Hc. now rewrite (Hpn c Hc). }
  rewrite !detect_script_unfold. unfold total, telugu_count, hindi_count, latin_count.
  rewrite !Hc; [reflexivity| | | |]; intros c Hc0; unfold neutral in Hc0;
    apply andb_true_iff in Hc0 as [Hc0 H3]; apply andb_true_iff in Hc0 as [H1 H2];
    apply negb_true_iff in H1, H2, H3; auto.
  now rewrite H1.
Qed.

Lemma detect_script_counts_only_witness :
  @detect_script cpython_blocks (py "नमस्ते, 2024!") = @detect_script cpython_blocks (py "नमस्ते").
Proof.
  apply (@detect_script_counts_only cpython_blocks (py "नमस्ते") (py ", 2024!")).
  - reflexivity.
  - apply Permutation_refl.
Defined.

(* ===================================================================== *)
(** * Further properties of contextual translation *)
(* ===================================================================== *)

Section ContextualFacts.
Context {U : Unicode}.
Variable nllb : list call -> call -> option str.

Lemma translate_out_stripped text source_lang target_lang use_fallback log out flag :
  fst (translate nllb text source_lang target_lang use_fallback log) = inr (out, flag) ->
  strip out = out.
Proof.
  intros Hres.
  destruct (translate_cases nllb text source_lang target_lang use_fallback log)
    as [[_ [[_ Hf]|(decoded & _ & Hf & _)]]
       |(_ & decoded & detected & _ & _ & _ & _ & _ & [[_ Hf]|(decoded2 & _ & Hf)])];
    rewrite Hf in Hres; try discriminate; injection Hres as <- _; apply strip_fixed.
Qed.

(** What one round of the loop adds: at most two calls, none for a
    curated idiom; the detail it records carries the part's content and
    canonical form. *)
Lemma translate_part_round source_lang target_lang p log :
  exists added,
    snd (translate_part nllb source_lang target_lang p log) = log ++ added
    /\ length added <= (if needs_model source_lang target_lang p then 2 else 0)
    /\ forall trans detail,
         fst (translate_part nllb source_lang target_lang p log) = inr (trans, detail) ->
         match detail with
         | Some d => [detail_part d]
         | None => []
         end = filter is_idiom_part [p].
Proof.
  unfold translate_part, bind, ret. destruct p as [c|c k]; cbn [needs_model].
  - destruct (translate_calls nllb c source_lang target_lang true log)
      as (rest & Hsnd & Hlen).
    destruct (translate nllb c source_lang target_lang true log) as [[e|[t f]] log'];
      simpl in *; exists (mkCall FineTuned c (normalize_lang source_lang)
                             (normalize_lang target_lang) :: rest);
      (split; [exact Hsnd|]); (split; [simpl; lia|]); intros trans detail H;
      [discriminate|now injection H as <- <-].
  - destruct (curated idiom_translations source_lang target_lang k) as [t|].
    + exists []. rewrite app_nil_r. simpl. repeat split; auto.
      intros trans detail [= <- <-]. reflexivity.
    + destruct (translate_calls nllb k source_lang target_lang true log)
        as (rest & Hsnd & Hlen).
      destruct (translate nllb k source_lang target_lang true log) as [[e|[t f]] log'];
        simpl in *; exists (mkCall FineTuned k (normalize_lang source_lang)
                               (normalize_lang target_lang) :: rest);
        (split; [exact Hsnd|]); (split; [simpl; lia|]); intros trans detail H;
        [discriminate|now injection H as <- <-].
Qed.

Lemma translate_parts_rounds source_lang target_lang parts :
  forall translated details log,
  exists added,
    snd (translate_parts nllb source_lang target_lang parts translated details log)
      = log ++ added
    /\ length added <= 2 * length (filter (needs_model source_lang target_lang) parts)
    /\ forall translated' details',
         fst (translate_parts nllb source_lang target_lang parts translated details log)
           = inr (translated', details') ->
         exists new_translated new_details,
           translated' = translated ++ new_translated
           /\ details' = details ++ new_details
           /\ length new_translated = length parts
           /\ map detail_part new_details = filter is_idiom_part parts.
Proof.
  induction parts as [|p rest IH]; intros translated details log.
  - exists []. simpl. rewrite app_nil_r. repeat split; auto.
    intros ? ? [= <- <-]. exists [], []. now rewrite !app_nil_r.
  - cbn [translate_parts]. unfold bind.
    destruct (translate_part_round source_lang target_lang p log)
      as (a1 & Hs1 & Hl1 & Hd1).
    destruct (translate_part nllb source_lang target_lang p log)
      as [[e|[trans detail]] log1]; simpl in Hs1; subst log1.
    + exists a1. simpl. split; [reflexivity|]. split; [|discriminate].
      destruct (needs_model source_lang target_lang p); simpl; lia.
    + destruct (IH (translated ++ [trans])
                   (details ++ match detail with Some d => [d] | None => [] end)
                   (log ++ a1)) as (a2 & Hs2 & Hl2 & Hd2).
      exists (a1 ++ a2). rewrite Hs2, app_assoc. split; [reflexivity|]. split.
      * rewrite length_app. simpl.
        destruct (needs_model source_lang target_lang p); simpl; lia.
      * intros translated' details' Hres.
        destruct (Hd2 _ _ Hres) as (nt & nd & -> & -> & Hlen & Hmap).
        exists (trans :: nt), (match detail with Some d => [d] | None => [] end ++ nd).
        rewrite <- !app_assoc. simpl. repeat split; auto.
        rewrite map_app, Hmap.
        specialize (Hd1 trans detail eq_refl). simpl in Hd1.
        destruct detail, (is_idiom_part p); simpl in *; congruence.
Qed.

End ContextualFacts.

(** X17.  The metadata of a successful contextual translation is
    consistent with the detection pass: ['idioms_detected'] is the number
    of spans, ['parts_translated'] the number of segments, and
    ['idiom_details'] holds one record per span, in the order of the
    spans, with the span's matched text and canonical form. *)
Theorem contextual_metadata_consistent {U : Unicode}
  (nllb : list call -> call -> option str)
  (text source_lang target_lang : str) (log : list call)
  (out : str) (n k : nat) (details : list idiom_detail) :
  fst (translate_with_context nllb text source_lang target_lang log)
    = inr (out, Contextual n details k) ->
  n = length (detect_idioms text source_lang)
  /\ k = length (split_sentence_with_idioms text (detect_idioms text source_lang))
  /\ map detail_part details = map idiom_part_of (detect_idioms text source_lang)
  /\ length details = n.
Proof.
  unfold translate_with_context.
  destruct (detect_idioms text source_lang) as [|i found] eqn:Ed.
  { unfold bind, ret.
    destruct (translate nllb text source_lang target_lang true log) as [[e|[t f]] log'];
      discriminate. }
  unfold bind.
  destruct (translate_parts_rounds nllb source_lang target_lang
              (split_sentence_with_idioms text (i :: found)) [] [] log)
    as (added & _ & _ & Hshape).
  destruct (translate_parts nllb source_lang target_lang _ [] [] log)
    as [[e|[translated ds]] log']; [discriminate|].
  destruct (Hshape _ _ eq_refl) as (nt & nd & _ & -> & _ & Hmap).
  destruct (_join_parts_intelligently translated target_lang); [discriminate|].
  unfold ret. simpl. intros [= _ <- <- <-].
  change (split_sentence_with_idioms text (i :: found))
    with (split_from text 0 (i :: found)) in Hmap.
  rewrite split_from_idiom_parts in Hmap.
  repeat split; auto.
  apply (f_equal (@length part)) in Hmap. now rewrite !length_map in Hmap.
Qed.

Lemma contextual_metadata_consistent_witness :
  1 = length (@detect_idioms cpython_blocks (py "We must bite the bullet.") (py "eng_Latn"))
  /\ 3 = length (split_sentence_with_idioms (py "We must bite the bullet.")
                   (@detect_idioms cpython_blocks (py "We must bite the bullet.")
                      (py "eng_Latn")))
  /\ map detail_part
       [mkDetail (py "bite the bullet") (py "bite the bullet") (py "कठिन काम करना")]
     = map idiom_part_of
         (@detect_idioms cpython_blocks (py "We must bite the bullet.") (py "eng_Latn"))
  /\ length [mkDetail (py "bite the bullet") (py "bite the bullet") (py "कठिन काम करना")]
     = 1.
Proof.
  apply (@contextual_metadata_consistent cpython_blocks echo_model
           (py "We must bite the bullet.") (py "eng_Latn") (py "hin_Deva") []
           (py "We must कठिन काम करना .")).
  vm_compute. reflexivity.
Defined.

(** X18.  A contextual request calls the models at most twice for each
    segment that needs them: the text segments and the idioms without a
    curated translation.  Idioms with a curated translation cost no
    call. *)
Theorem contextual_call_bound {U : Unicode}
  (nllb : list call -> call -> option str)
  (text source_lang target_lang : str) (log : list call) :
  length (calls_of (translate_with_context nllb text source_lang target_lang) log)
  <= 2 * length (filter (needs_model source_lang target_lang)
                   (split_sentence_with_idioms text (detect_idioms text source_lang))).
Proof.
  unfold translate_with_context.
  destruct (detect_idioms text source_lang) as [|i found].
  - destruct (translate_calls nllb text source_lang target_lang true log)
      as (rest & Hsnd & Hlen).
    erewrite calls_of_app.
    2:{ unfold bind, ret.
        destruct (translate nllb text source_lang target_lang true log)
          as [[e|[t f]] log']; exact Hsnd. }
    simpl. lia.
  - destruct (translate_parts_rounds nllb source_lang target_lang
                (split_sentence_with_idioms text (i :: found)) [] [] log)
      as (added & Hsnd & Hlen & _).
    erewrite calls_of_app; [exact Hlen|].
    unfold bind, ret, raise.
    destruct (translate_parts nllb source_lang target_lang _ [] [] log)
      as [[e|[translated ds]] log']; [exact Hsnd|].
    destruct (_join_parts_intelligently translated target_lang); exact Hsnd.
Qed.

(** X19.  A text whose segments are all idioms with a curated
    translation is translated without a single call to the models, so
    the request cannot fail for a failing model. *)
Theorem curated_only_request_makes_no_call {U : Unicode}
  (nllb : list call -> call -> option str)
  (text source_lang target_lang : str) (log : list call) :
  filter (needs_model source_lang target_lang)
         (split_sentence_with_idioms text (detect_idioms text source_lang)) = [] ->
  snd (translate_with_context nllb text source_lang target_lang log) = log
  /\ fst (translate_with_context nllb text source_lang target_lang log)
     <> inl CapabilityFailure.
Proof.
  intros Hnone. unfold translate_with_context.
  destruct (detect_idioms text source_lang) as [|i found]; [discriminate Hnone|].
  destruct (translate_parts_rounds nllb source_lang target_lang
              (split_sentence_with_idioms text (i :: found)) [] [] log)
    as (added & Hsnd & Hlen & _).
  destruct (stops_translate_parts nllb source_lang target_lang
              (split_sentence_with_idioms text (i :: found)) [] [] log)
    as (added' & Hsnd' & Hshape).
  rewrite Hnone in Hlen. destruct added; [|simpl in Hlen; lia].
  rewrite app_nil_r in Hsnd. unfold bind, ret, raise.
  destruct (translate_parts nllb source_lang target_lang _ [] [] log)
    as [[e|[translated ds]] log']; simpl in Hsnd, Hsnd', Hshape |- *; subst log'.
  - split; [reflexivity|]. intros [= ->].
    destruct Hshape as (pre & c & -> & _).
    apply (f_equal (@length call)) in Hsnd'. rewrite !length_app in Hsnd'.
    simpl in Hsnd'. lia.
  - destruct (_join_parts_intelligently translated target_lang) as [e|final] eqn:E;
      simpl; split; auto; [|discriminate].
    apply join_parts_raises in E. subst e. discriminate.
Qed.

Lemma curated_only_request_makes_no_call_witness :
  snd (@translate_with_context cpython_blocks (fun _ _ => None) (py "Piece of cake")
         (py "eng_Latn") (py "hin_Deva") []) = []
  /\ fst (@translate_with_context cpython_blocks (fun _ _ => None) (py "Piece of cake")
            (py "eng_Latn") (py "hin_Deva") [])
     <> inl CapabilityFailure.
Proof.
  apply (@curated_only_request_makes_no_call cpython_blocks (fun _ _ => None)
           (py "Piece of cake") (py "eng_Latn") (py "hin_Deva") []).
  vm_compute. reflexivity.
Defined.

(** X20.  A translation that [translate_with_context] returns, in
    either mode, has no whitespace at either end. *)
Theorem contextual_result_stripped {U : Unicode}
  (nllb : list call -> call -> option str)
  (text source_lang target_lang : str) (log : list call)
  (out : str) (meta : metadata) :
  fst (translate_with_context nllb text source_lang target_lang log) = inr (out, meta) ->
  strip out = out.
Proof.
  unfold translate_with_context.
  destruct (detect_idioms text source_lang) as [|i found].
  - unfold bind, ret.
    destruct (translate nllb text source_lang target_lang true log)
      as [[e|[t f]] log'] eqn:E; [discriminate|].
    simpl. intros [= <- _].
    apply (translate_out_stripped nllb text source_lang target_lang true log t f).
    now rewrite E.
  - unfold bind, ret, raise.
    destruct (translate_parts nllb source_lang target_lang _ [] [] log)
      as [[e|[translated ds]] log']; [discriminate|].
    unfold _join_parts_intelligently.
    destruct translated as [|first others]; [simpl; now intros [= <- _]|].
    destruct (join_loop _ first others); [discriminate|].
    simpl. intros [= <- _]. apply strip_fixed.
Qed.

Lemma contextual_result_stripped_witness :
  strip (py "We must कठिन काम करना .") = py "We must कठिन काम करना .".
Proof.
  apply (@contextual_result_stripped cpython_blocks echo_model
           (py " We must bite the bullet. ") (py "eng_Latn") (py "hin_Deva") []
           (py "We must कठिन काम करना .")
           (Contextual 1
              [mkDetail (py "bite the bullet") (py "bite the bullet") (py "कठिन काम करना")]
              3)).
  vm_compute. reflexivity.
Defined.

(** X21.  For a source language without a catalogue, and so for the
    aliases [english], [hindi] and [telugu], contextual translation is
    plain translation: the text is handed to [translate] whole and the
    metadata reports the direct method. *)
Theorem contextual_without_catalogue {U : Unicode}
  (nllb : list call -> call -> option str)
  (text source_lang target_lang : str) (log : list call) :
  ~ In source_lang detector_codes ->
  translate_with_context nllb text source_lang target_lang log
  = match translate nllb text source_lang target_lang true log with
    | (inr (translation, used_fallback), log') =>
      (inr (translation, Direct used_fallback), log')
    | (inl e, log') => (inl e, log')
    end.
Proof.
  intros H. unfold translate_with_context, detect_idioms.
  rewrite (patterns_for_unsupported source_lang H). unfold bind, ret.
  destruct (translate nllb text source_lang target_lang true log) as [[e|[t f]] log'];
    reflexivity.
Qed.

Lemma contextual_without_catalogue_witness :
  @translate_with_context cpython_blocks echo_model (py "It was a piece of cake")
     (py "english") (py "hindi") []
  = match @translate cpython_blocks echo_model (py "It was a piece of cake")
            (py "english") (py "hindi") true [] with
    | (inr (translation, used_fallback), log') =>
      (inr (translation, Direct used_fallback), log')
    | (inl e, log') => (inl e, log')
    end.
Proof.
  apply (@contextual_without_catalogue cpython_blocks echo_model).
  vm_compute. intros H. repeat (destruct H as [H|H]; [discriminate H|]). exact H.
Defined.

(* ===================================================================== *)
(** * Properties of the playground API and of the evaluation loop *)
(* ===================================================================== *)

Lemma lang_mapping_values (k v : str) :
  dict_get lang_mapping k = Some v ->
  In v (map py ["eng_Latn"; "hin_Deva"; "tel_Telu"; "zho_Hans"; "deu_Latn"]%string).
Proof.
  unfold lang_mapping, dict_get.
  repeat match goal with
         | |- (if ?b then _ else _) = _ -> _ => destruct b
         end; try discriminate; intros [= <-]; vm_compute; auto 6.
Qed.

Lemma lang_mapping_keys (k : str) :
  In k (map fst lang_mapping) -> exists v, dict_get lang_mapping k = Some v.
Proof.
  intros H. vm_compute in H.
  repeat (destruct H as [<-|H]; [eexists; reflexivity|]). destruct H.
Qed.

Lemma detect_script_unknown {U : Unicode} (text : str) :
  detect_script text = Unknown -> total text = 0.
Proof.
  rewrite detect_script_unfold.
  destruct (Nat.eqb_spec (total text) 0); [auto|].
  destruct (total text <? 2 * telugu_count text); [discriminate|].
  destruct (total text <? 2 * hindi_count text); [discriminate|].
  destruct (total text <? 2 * latin_count text); discriminate.
Qed.

Section BackendCodes.
Context {U : Unicode}.
Hypothesis Hlower : python_lower U.

(** The backend codes of the table are codes [translate] leaves as they
    are, and for which [get_expected_script] answers Unknown. *)
Lemma backend_code_facts (code v : str) :
  dict_get lang_mapping code = Some v ->
  normalize_lang v = v /\ get_expected_script v = Unknown.
Proof.
  destruct Hlower as [_ H2]. intros H. apply lang_mapping_values in H.
  unfold normalize_lang, get_expected_script.
  destruct H as [<-|[<-|[<-|[<-|[<-|[]]]]]]; rewrite H2 by reflexivity;
    split; reflexivity.
Qed.

End BackendCodes.



(** X23.  For a target code of the frontend table ([en], [hi], [te],
    [zh], [de] and the five backend codes) a successful response reports
    the expected script Unknown, and reports the script as correct only
    when the translation has no alphabetic character: the report is
    computed with [get_expected_script] on the backend code. *)
Theorem translate_text_script_report {U : Unicode}
  (nllb : list call -> call -> option str)
  (tester_loaded : bool) (data : payload) (log log' : list call) (body : api_success) :
  python_lower U ->
  translate_text nllb tester_loaded data log = (Succeeded body, log') ->
  In (r_target_lang body) (map fst lang_mapping) ->
  expected_script body = Unknown
  /\ (script_correct body = true -> total (target_text body) = 0).
Proof.
  intros Hlower. unfold translate_text.
  destruct tester_loaded; [|discriminate].
  destruct data as [[|]|[|f fields]]; try discriminate. cbn [negb].
  destruct (dict_get_default (f :: fields) (py "text") (JString [])) as [raw|b];
    [|discriminate].
  destruct (negb (nonempty (strip raw))); [discriminate|].
  destruct (negb _ || negb _); [discriminate|].
  destruct (dict_get_default (f :: fields) (py "source_lang") (JString []))
    as [source|bs]; [|discriminate].
  destruct (dict_get_default (f :: fields) (py "target_lang") (JString []))
    as [target|bt]; [|discriminate].
  assert (Hreport : forall translation kind meta,
            respond translation (strip raw) source target
                    (map_frontend_to_backend_lang target) kind meta = Succeeded body ->
            In (r_target_lang body) (map fst lang_mapping) ->
            expected_script body = Unknown
            /\ (script_correct body = true -> total (target_text body) = 0)).
  { intros translation kind meta [= <-]. simpl. intros Hin.
    apply lang_mapping_keys in Hin as (v & Hv).
    unfold map_frontend_to_backend_lang, dict_get_default. rewrite Hv.
    destruct (backend_code_facts Hlower _ _ Hv) as [_ ->].
    split; [reflexivity|]. intros Hc. apply script_eqb_spec in Hc.
    now apply detect_script_unknown. }
  destruct (truthy _).
  - destruct (translate_contextual nllb _ _ _ log) as [[e|[translation metadata]] l];
      [discriminate|]. intros H. eapply Hreport. exact (f_equal fst H).
  - destruct (translate nllb _ _ _ true log) as [[e|[translation fb]] l];
      [discriminate|]. intros H. eapply Hreport. exact (f_equal fst H).
Qed.

Lemma translate_text_script_report_witness :
  Unknown = Unknown
  /\ (script_eqb Devanagari Unknown = true -> @total cpython_blocks (py "नमस्ते") = 0).
Proof.
  apply (@translate_text_script_report cpython_blocks (constant_model (py "नमस्ते")) true
           (Object [(py "text", JString (py "Hello")); (py "source_lang", JString (py "en"));
                    (py "target_lang", JString (py "hi"))])
           [] [mkCall FineTuned (py "Hello") (py "eng_Latn") (py "hin_Deva")]
           (mkSuccess (py "नमस्ते") (py "Hello") (py "en") (py "hi") (py "regular")
                      (RegularMeta false None) Devanagari Unknown false)).
  - exact cpython_blocks_lower.
  - vm_compute. reflexivity.
  - vm_compute. auto.
Defined.

(** X24.  For a valid non-contextual request whose language codes are in
    the frontend table, the first call to the models carries the stripped
    text and the two backend codes of the table. *)
Theorem translate_text_first_call {U : Unicode}
  (nllb : list call -> call -> option str)
  (fields : list (str * jvalue)) (raw source target : str) (log : list call) :
  python_lower U ->
  dict_get_default fields (py "text") (JString []) = JString raw ->
  strip raw <> [] ->
  dict_get_default fields (py "source_lang") (JString []) = JString source ->
  dict_get_default fields (py "target_lang") (JString []) = JString target ->
  In source (map fst lang_mapping) -> In target (map fst lang_mapping) ->
  truthy (dict_get_default fields (py "use_contextual") (JOther false)) = false ->
  exists rest,
    skipn (length log) (snd (translate_text nllb true (Object fields) log))
    = mkCall FineTuned (strip raw) (map_frontend_to_backend_lang source)
             (map_frontend_to_backend_lang target) :: rest.
Proof.
  intros Hlower Ht Hs Hsrc Htgt Hks Hkt Hctx. unfold translate_text. cbn [negb].
  destruct fields as [|f fields].
  { cbn in Ht. injection Ht as <-. now contradiction Hs. }
  rewrite Ht, Hsrc, Htgt, Hctx.
  destruct (strip raw) as [|c stripped] eqn:Es; [now contradiction Hs|].
  cbn [nonempty negb truthy].
  apply lang_mapping_keys in Hks as (vs & Hvs). apply lang_mapping_keys in Hkt as (vt & Hvt).
  assert (Hns : nonempty source = true).
  { destruct source; [vm_compute in Hvs; discriminate|reflexivity]. }
  assert (Hnt : nonempty target = true).
  { destruct target; [vm_compute in Hvt; discriminate|reflexivity]. }
  rewrite Hns, Hnt. cbn [negb orb].
  destruct (translate_calls nllb (c :: stripped) (map_frontend_to_backend_lang source)
              (map_frontend_to_backend_lang target) true log) as (rest & Hsnd & _).
  unfold map_frontend_to_backend_lang, dict_get_default in *. rewrite Hvs, Hvt in *.
  destruct (backend_code_facts Hlower _ _ Hvs) as [Hfs _].
  destruct (backend_code_facts Hlower _ _ Hvt) as [Hft _].
  rewrite Hfs, Hft in Hsnd. exists rest.
  destruct (translate nllb (c :: stripped) vs vt true log) as [[e|[translation fb]] l];
    simpl in Hsnd |- *; rewrite Hsnd, skipn_app, Nat.sub_diag, skipn_all; reflexivity.
Qed.

Lemma translate_text_first_call_witness :
  exists rest,
    skipn 0
      (snd (@translate_text cpython_blocks echo_model true
              (Object [(py "text", JString (py " Hello ")); (py "source_lang", JString (py "en"));
                       (py "target_lang", JString (py "te"))]) []))
    = mkCall FineTuned (strip (py " Hello ")) (map_frontend_to_backend_lang (py "en"))
             (map_frontend_to_backend_lang (py "te")) :: rest.
Proof.
  apply (@translate_text_first_call cpython_blocks echo_model
           [(py "text", JString (py " Hello ")); (py "source_lang", JString (py "en"));
            (py "target_lang", JString (py "te"))]
           (py " Hello ") (py "en") (py "te") []).
  - exact cpython_blocks_lower.
  - reflexivity.
  - vm_compute. discriminate.
  - reflexivity.
  - reflexivity.
  - vm_compute. auto.
  - vm_compute. auto.
  - reflexivity.
Defined.

Section EvaluationFacts.
Context {U : Unicode}.
Variable nllb : list call -> call -> option str.


End EvaluationFacts.

